(** * Get_HL_meta: flattening LibraryCloud MODS records into CSV rows

    A shallow embedding of [Get_HL_meta.py].  The parsed XML document is the
    nested structure [xmltodict.parse] returns (mappings with string keys,
    sequences, strings and [None]); integers are kept as the representative
    numeric scalar that [get_text] stringifies.  Python exceptions are
    modelled by an error monad, mappings by insertion-ordered association
    lists.

    A Python string is held as its UTF-8 encoding.  Prefix, substring,
    split and join are the same on the encoding as on the text.  [strip]
    and the digit class [\d] of the regular expression read code points:
    the encoding is decoded, and white space and decimal digits are those of
    Unicode 14.0 (the tables of Python 3.11).  [lower] changes the letters
    A to Z only; what it leaves as it is never decides a comparison, since
    every lower-cased text is only compared with ASCII constants that have
    no "k" and are complete words (the two characters outside ASCII whose
    lower case has an ASCII letter are U+212A, giving "k", and U+0130,
    giving "i" followed by U+0307). *)

From Stdlib Require Import String Ascii List NArith ZArith Bool Arith Lia.
From Stdlib Require Import DecimalString DecimalNat.
Import ListNotations.

Set Warnings "-register-all".

Local Open Scope string_scope.
Local Open Scope list_scope.
Local Open Scope nat_scope.

(** ** Text as UTF-8 *)

Module Utf8.

Definition byte (n : N) : ascii := ascii_of_N n.

(** A continuation byte with the low six bits of [n] *)
Definition cont (n : N) : ascii := byte (128 + n mod 64).

Definition low6 (b : ascii) : N := (N_of_ascii b mod 64)%N.

(** The bytes of one code point.  A code point U+DC80 to U+DCFF stands for
    a byte that is part of no UTF-8 sequence and is written back as that
    byte, as in Python's [surrogateescape], so that every byte string is
    the encoding of a text. *)
Definition char (c : N) : string :=
  if (c <? 128)%N then String (byte c) EmptyString
  else if (c <? 2048)%N then
    String (byte (192 + c / 64)) (String (cont c) EmptyString)
  else if (56448 <=? c)%N && (c <=? 56575)%N then
    String (byte (c - 56320)) EmptyString
  else if (c <? 65536)%N then
    String (byte (224 + c / 4096))
      (String (cont (c / 64)) (String (cont c) EmptyString))
  else
    String (byte (240 + c / 262144))
      (String (cont (c / 4096))
         (String (cont (c / 64)) (String (cont c) EmptyString))).

Fixpoint encode (l : list N) : string :=
  match l with
  | [] => EmptyString
  | c :: r => (char c ++ encode r)%string
  end.

(** The code points of a byte string: a sequence of two, three or four
    bytes is read as a code point when it is that code point's encoding,
    and a byte that starts no such sequence is escaped. *)
Fixpoint decode (s : string) : list N :=
  match s with
  | EmptyString => []
  | String b1 r1 =>
      let n1 := N_of_ascii b1 in
      if (n1 <? 128)%N then n1 :: decode r1
      else
        let escaped := (56320 + n1)%N :: decode r1 in
        match r1 with
        | String b2 r2 =>
            let c2 := ((n1 mod 32) * 64 + low6 b2)%N in
            if String.eqb (char c2) (String b1 (String b2 EmptyString))
            then c2 :: decode r2
            else
              match r2 with
              | String b3 r3 =>
                  let c3 := (((n1 mod 16) * 64 + low6 b2) * 64 + low6 b3)%N in
                  if String.eqb (char c3)
                       (String b1 (String b2 (String b3 EmptyString)))
                  then c3 :: decode r3
                  else
                    match r3 with
                    | String b4 r4 =>
                        let c4 := ((((n1 mod 8) * 64 + low6 b2) * 64 + low6 b3) * 64
                                   + low6 b4)%N in
                        if String.eqb (char c4)
                             (String b1 (String b2 (String b3 (String b4 EmptyString))))
                        then c4 :: decode r4
                        else escaped
                    | EmptyString => escaped
                    end
              | EmptyString => escaped
              end
        | EmptyString => escaped
        end
  end.

End Utf8.

(** ** Python string methods *)

Module PyStr.

Definition truthy (s : string) : bool :=
  match s with EmptyString => false | _ => true end.

Definition is_upper (c : ascii) : bool :=
  let n := nat_of_ascii c in (65 <=? n) && (n <=? 90).

Definition lower_char (c : ascii) : ascii :=
  if is_upper c then ascii_of_nat (nat_of_ascii c + 32) else c.

(** [s.lower()] *)
Fixpoint lower (s : string) : string :=
  match s with
  | EmptyString => EmptyString
  | String c r => String (lower_char c) (lower r)
  end.

(** The code points [str.strip()] removes: those [str.isspace()] holds of *)
Definition white_space : list N :=
  [9; 10; 11; 12; 13; 28; 29; 30; 31; 32; 133; 160; 5760;
   8192; 8193; 8194; 8195; 8196; 8197; 8198; 8199; 8200; 8201; 8202;
   8232; 8233; 8239; 8287; 12288]%N.

Definition is_space (c : N) : bool := existsb (N.eqb c) white_space.

Fixpoint lstrip (l : list N) : list N :=
  match l with
  | [] => []
  | c :: r => if is_space c then lstrip r else l
  end.

Definition rstrip (l : list N) : list N := rev (lstrip (rev l)).

(** [s.strip()] *)
Definition strip (s : string) : string :=
  Utf8.encode (rstrip (lstrip (Utf8.decode s))).

(** [s.startswith(p)] *)
Fixpoint startswith (p s : string) : bool :=
  match p, s with
  | EmptyString, _ => true
  | String a p', String b s' => Ascii.eqb a b && startswith p' s'
  | String _ _, EmptyString => false
  end.

(** [sub in s], also [s.find(sub) >= 0] *)
Fixpoint contains (sub s : string) : bool :=
  startswith sub s ||
  match s with
  | EmptyString => false
  | String _ r => contains sub r
  end.

(** [s.split(c)] for a one-character separator *)
Fixpoint split (c : ascii) (s : string) : list string :=
  match s with
  | EmptyString => [EmptyString]
  | String a r =>
      if Ascii.eqb a c then EmptyString :: split c r
      else match split c r with
           | h :: t => String a h :: t
           | [] => [String a EmptyString]
           end
  end.

(** [s.split(c, 1)] *)
Fixpoint split1 (c : ascii) (s : string) : list string :=
  match s with
  | EmptyString => [EmptyString]
  | String a r =>
      if Ascii.eqb a c then [EmptyString; r]
      else match split1 c r with
           | h :: t => String a h :: t
           | [] => [String a EmptyString]
           end
  end.

(** [sep.join(l)] *)
Definition join (sep : string) (l : list string) : string := String.concat sep l.

(** [list(dict.fromkeys(l))]: first occurrences, in order *)
Fixpoint dedup_from (seen l : list string) : list string :=
  match l with
  | [] => []
  | x :: r =>
      if existsb (String.eqb x) seen then dedup_from seen r
      else x :: dedup_from (x :: seen) r
  end.

Definition dedup (l : list string) : list string := dedup_from [] l.

(** [str(n)] for a natural number, as the f-strings of the header print it *)
Definition of_nat (n : nat) : string := NilZero.string_of_uint (Nat.to_uint n).

(** [str(z)] for an integer *)
Definition of_Z (z : Z) : string := NilZero.string_of_int (Z.to_int z).

(** The code points of the decimal digit zero of every script; the nine
    code points after each are its digits one to nine. *)
Definition decimal_zeros : list N :=
  [48; 1632; 1776; 1984; 2406; 2534; 2662; 2790; 2918; 3046; 3174; 3302; 3430;
   3558; 3664; 3792; 3872; 4160; 4240; 6112; 6160; 6470; 6608; 6784; 6800; 6992;
   7088; 7232; 7248; 42528; 43216; 43264; 43472; 43504; 43600; 44016; 65296;
   66720; 68912; 69734; 69872; 69942; 70096; 70384; 70736; 70864; 71248; 71360;
   71472; 71904; 72016; 72784; 73040; 73120; 92768; 92864; 93008;
   120782; 120792; 120802; 120812; 120822;
   123200; 123632; 125264; 130032]%N.

(** What [\d] matches in a [str] pattern *)
Definition is_digit (c : N) : bool :=
  existsb (fun zero => (zero <=? c)%N && (c <? zero + 10)%N) decimal_zeros.

Fixpoint take_digits (l : list N) : list N :=
  match l with
  | [] => []
  | c :: r => if is_digit c then c :: take_digits r else []
  end.

(** The pattern [99\d{14,}] anchored at the start of [l]: the quantifier is
    greedy and nothing follows it, so the match takes the whole digit run. *)
Definition match_here (l : list N) : option (list N) :=
  match l with
  | c1 :: c2 :: r =>
      if (c1 =? 57)%N && (c2 =? 57)%N then
        let ds := take_digits r in
        if 14 <=? length ds then Some (57%N :: 57%N :: ds) else None
      else None
  | _ => None
  end.

(** [re.search(r"(99\d{14,})", s)] over the code points of [s]: the
    leftmost position that matches *)
Fixpoint search (l : list N) : option (list N) :=
  match match_here l with
  | Some d => Some d
  | None =>
      match l with
      | [] => None
      | _ :: r => search r
      end
  end.

End PyStr.

(** ** Exceptions *)

Inductive exn : Type :=
| AttributeError
| IndexError
| TransportError.

Inductive result (A : Type) : Type :=
| Ok (a : A)
| Raise (e : exn).

Arguments Ok {A} a.
Arguments Raise {A} e.

Definition bind {A B : Type} (m : result A) (k : A -> result B) : result B :=
  match m with
  | Ok a => k a
  | Raise e => Raise e
  end.

Notation "x <- m ;; k" := (bind m (fun x => k))
  (at level 61, m at next level, right associativity).
Notation "' pat <- m ;; k" := (bind m (fun x => match x with pat => k end))
  (at level 61, pat pattern, m at next level, right associativity).

(** A [for] loop whose body only appends to an output list: the body returns
    what one iteration appends. *)
Fixpoint for_collect {A B : Type} (body : A -> result (list B)) (l : list A)
  : result (list B) :=
  match l with
  | [] => Ok []
  | x :: r =>
      ys <- body x ;;
      zs <- for_collect body r ;;
      Ok (ys ++ zs)
  end.

(** A [for] loop left by [return] or [break] at the first iteration whose
    body yields a value. *)
Fixpoint for_first {A B : Type} (body : A -> result (option B)) (l : list A)
  : result (option B) :=
  match l with
  | [] => Ok None
  | x :: r =>
      y <- body x ;;
      match y with
      | Some b => Ok (Some b)
      | None => for_first body r
      end
  end.

(** ** The parsed document *)

Inductive value : Type :=
| VNone
| VStr (s : string)
| VInt (z : Z)
| VList (l : list value)
| VDict (d : list (string * value)).

Definition dict : Type := list (string * value).

(** Mappings are insertion-ordered association lists, for any type of
    values: the parsed document's, and the strings of an output row. *)
Section Mapping.

Context {V : Type}.

Fixpoint dict_get (d : list (string * V)) (k : string) : option V :=
  match d with
  | [] => None
  | (k', v) :: r => if String.eqb k' k then Some v else dict_get r k
  end.

(** [d[k] = v]: an existing key keeps its position *)
Fixpoint dict_set (d : list (string * V)) (k : string) (v : V) : list (string * V) :=
  match d with
  | [] => [(k, v)]
  | (k', v') :: r =>
      if String.eqb k' k then (k, v) :: r else (k', v') :: dict_set r k v
  end.

(** [d.get(k, default)] *)
Definition get_default (d : list (string * V)) (k : string) (default : V) : V :=
  match dict_get d k with Some v => v | None => default end.

End Mapping.

(** [d.get(k)] *)
Definition get (d : dict) (k : string) : value := get_default d k VNone.

Definition keys (d : dict) : list string := map fst d.

(** Truth value of an object *)
Definition truthy (v : value) : bool :=
  match v with
  | VNone => false
  | VStr s => PyStr.truthy s
  | VInt z => negb (Z.eqb z 0)
  | VList l => match l with [] => false | _ => true end
  | VDict d => match d with [] => false | _ => true end
  end.

(** [a or b] *)
Definition py_or (a b : value) : value := if truthy a then a else b.

(** ** utils *)

Definition as_list (x : value) : list value :=
  match x with
  | VNone => []
  | VList l => l
  | _ => [x]
  end.

(** The key [strip_ns] stores: [k.split(":", 1)[1]] when [k] has a colon *)
Definition strip_key (k : string) : string :=
  if PyStr.contains ":" k then nth 1 (PyStr.split1 ":" k) EmptyString else k.

Fixpoint strip_ns (obj : value) : value :=
  match obj with
  | VDict d =>
      VDict ((fix items (kvs : list (string * value)) (out : dict) : dict :=
                match kvs with
                | [] => out
                | (k, v) :: r => items r (dict_set out (strip_key k) (strip_ns v))
                end) d [])
  | VList l => VList (map strip_ns l)
  | _ => obj
  end.

(** [k.split(":")[-1]] *)
Definition local_name (k : string) : string := last (PyStr.split ":" k) EmptyString.

(** The loop shared by [nget] and [get_text]: the value of the first key, in
    mapping order, whose local name is [key]. *)
Fixpoint suffix_lookup (d : dict) (key : string) : option value :=
  match d with
  | [] => None
  | (k, v) :: r => if String.eqb (local_name k) key then Some v else suffix_lookup r key
  end.

Definition nget (d : value) (key : string) : value :=
  match d with
  | VDict m =>
      match dict_get m key with
      | Some v => v
      | None =>
          match suffix_lookup m key with
          | Some v => v
          | None => VNone
          end
      end
  | _ => VNone
  end.

(** ** [str(x)]

    [get_text] stringifies whatever sits under the text key; for a sequence
    or a mapping that is Python's [repr].  An integer is written as its
    decimal numeral; the interpreter refuses to convert an integer of more
    than 4300 digits (ValueError), which lies outside this model: the
    properties that depend on it are stated for trees without integers
    ([parsed_text]), which is what the parser yields. *)

Module PyRepr.

Definition dq : ascii := ascii_of_nat 34.
Definition sq : ascii := ascii_of_nat 39.
Definition bs : ascii := ascii_of_nat 92.

Definition hex_digit (n : nat) : ascii :=
  nth n (list_ascii_of_string "0123456789abcdef") "0"%char.

Definition char (q c : ascii) : string :=
  let n := nat_of_ascii c in
  if Ascii.eqb c bs then String bs (String bs EmptyString)
  else if Ascii.eqb c q then String bs (String q EmptyString)
  else if n =? 9 then String bs "t"
  else if n =? 10 then String bs "n"
  else if n =? 13 then String bs "r"
  else if (n <? 32) || (n =? 127) then
    String bs (String "x" (String (hex_digit (n / 16)) (String (hex_digit (n mod 16)) EmptyString)))
  else String c EmptyString.

Fixpoint chars (q : ascii) (s : string) : string :=
  match s with
  | EmptyString => EmptyString
  | String c r => (char q c ++ chars q r)%string
  end.

Definition str (s : string) : string :=
  let q := if PyStr.contains (String sq EmptyString) s
              && negb (PyStr.contains (String dq EmptyString) s)
           then dq else sq in
  String q (chars q s ++ String q EmptyString)%string.

Fixpoint repr (v : value) : string :=
  match v with
  | VNone => "None"
  | VStr s => str s
  | VInt z => PyStr.of_Z z
  | VList l => ("[" ++ PyStr.join ", " (map repr l) ++ "]")%string
  | VDict d =>
      ("{" ++ PyStr.join ", "
                (map (fun kv => (str (fst kv) ++ ": " ++ repr (snd kv))%string) d)
           ++ "}")%string
  end.

End PyRepr.

Definition py_str (v : value) : string :=
  match v with
  | VStr s => s
  | _ => PyRepr.repr v
  end.

(** ** [get_text] *)

Inductive path_key : Type :=
| KStr (s : string)
| KInt (i : Z).

Definition is_none (v : value) : bool :=
  match v with VNone => true | _ => false end.

(** The path loop of [get_text]; [None] is its [return None]. *)
Fixpoint walk (cur : value) (path : list path_key) : option value :=
  match path with
  | [] => Some cur
  | key :: rest =>
      if is_none cur then None
      else
        match key with
        | KInt i =>
            match cur with
            | VList l =>
                if (0 <=? i)%Z && (i <? Z.of_nat (length l))%Z
                then walk (nth (Z.to_nat i) l VNone) rest
                else None
            | _ => None
            end
        | KStr k =>
            match cur with
            | VDict d =>
                match dict_get d k with
                | Some v => walk v rest
                | None =>
                    match suffix_lookup d k with
                    | Some v => walk v rest
                    | None => None
                    end
                end
            | _ => None
            end
        end
  end.

(** ["k" in cur and cur["k"] is not None] *)
Definition text_key (d : dict) (k : string) : option value :=
  match dict_get d k with
  | Some v => if is_none v then None else Some v
  | None => None
  end.

(** Text resolution of the node the path leads to *)
Definition text_of (cur : value) : option string :=
  match cur with
  | VNone => None
  | VDict d =>
      match text_key d "#text" with
      | Some v => Some (py_str v)
      | None =>
          match text_key d "text" with
          | Some v => Some (py_str v)
          | None => None
          end
      end
  | VStr _ | VInt _ => Some (py_str cur)
  | VList _ => None
  end.

Definition get_text (node : value) (path : list path_key) : option string :=
  match walk node path with
  | Some cur => text_of cur
  | None => None
  end.

(** Truth value of an [Optional[str]] *)
Definition some_text (o : option string) : bool :=
  match o with
  | Some s => PyStr.truthy s
  | None => false
  end.

(** [o or ""] *)
Definition or_empty (o : option string) : string :=
  match o with
  | Some s => if PyStr.truthy s then s else EmptyString
  | None => EmptyString
  end.

(** [[x for x in l if x]] *)
Definition present (l : list (option string)) : list string :=
  flat_map (fun o => if some_text o then [or_empty o] else []) l.

Definition mem (s : string) (l : list string) : bool := existsb (String.eqb s) l.

Definition join_clean (values : list string) : string :=
  PyStr.join "; "
    (PyStr.dedup
       (map PyStr.strip
          (filter (fun v => PyStr.truthy v && PyStr.truthy (PyStr.strip v)) values))).

(** A string method called on an object: only [str] has [lower] and [strip]. *)
Definition str_method (f : string -> string) (v : value) : result string :=
  match v with
  | VStr s => Ok (f s)
  | _ => Raise AttributeError
  end.

(** [(n.get(k) or "").lower() if isinstance(n, dict) else ""] *)
Definition attr_lower (n : value) (k : string) : result string :=
  match n with
  | VDict d => str_method PyStr.lower (py_or (get d k) (VStr EmptyString))
  | _ => Ok EmptyString
  end.

(** [(n.get(k) or "").strip() if isinstance(n, dict) else ""] *)
Definition attr_strip (n : value) (k : string) : result string :=
  match n with
  | VDict d => str_method PyStr.strip (py_or (get d k) (VStr EmptyString))
  | _ => Ok EmptyString
  end.

(** [get_text(v) if isinstance(v, dict) else (str(v) if v is not None else None)] *)
Definition node_text (v : value) : option string :=
  match v with
  | VDict _ => get_text v []
  | VNone => None
  | _ => Some (py_str v)
  end.

(** ** extractors *)

(** [" ".join([x for x in [non, t] if x])], then [f"{full}: {sub}"] when the
    subtitle is non-empty *)
Definition compose_title (non t sub : option string) : string :=
  let full := PyStr.join " " (present [non; t]) in
  if some_text sub then (full ++ ": " ++ or_empty sub)%string else full.

(** One iteration of the loop of [extract_title] *)
Definition title_step (ti : value) : result (list string) :=
  let t := get_text ti [KStr "title"] in
  let non := get_text ti [KStr "nonSort"] in
  let sub := get_text ti [KStr "subTitle"] in
  ttype <- attr_lower ti "@type" ;;
  if some_text t && mem ttype [EmptyString; "translated"]
  then Ok [compose_title non t sub]
  else Ok [].

Definition extract_title (mods : value) : result string :=
  titles <- for_collect title_step (as_list (nget mods "titleInfo")) ;;
  Ok (hd EmptyString titles).

Definition variant_types : list string :=
  ["alternative"; "translated"; "uniform"; "abbreviated"].

(** One iteration of the loop of [extract_variant_titles] *)
Definition variant_step (ti : value) : result (list string) :=
  ttype <- attr_lower ti "@type" ;;
  if mem ttype variant_types then
    let t := get_text ti [KStr "title"] in
    let non := get_text ti [KStr "nonSort"] in
    let sub := get_text ti [KStr "subTitle"] in
    if some_text t || some_text non || some_text sub then
      let full := compose_title non t sub in
      if PyStr.truthy full then Ok [full] else Ok []
    else Ok []
  else Ok [].

Definition extract_variant_titles (mods : value) : result string :=
  out <- for_collect variant_step (as_list (nget mods "titleInfo")) ;;
  Ok (join_clean out).

(** The text [_display_name_with_dates] reads from one name-part:
    [(get_text(np) if isinstance(np, dict) else (str(np) if np is not None
    else "")).strip()]; [None.strip()] raises. *)
Definition name_part_text (np : value) : result string :=
  match np with
  | VDict _ =>
      match get_text np [] with
      | Some s => Ok (PyStr.strip s)
      | None => Raise AttributeError
      end
  | VNone => Ok (PyStr.strip EmptyString)
  | _ => Ok (PyStr.strip (py_str np))
  end.

(** The loop over the name-parts, with its two accumulators *)
Fixpoint name_parts_loop (nps : list value) (other_parts date_parts : list string)
  : result (list string * list string) :=
  match nps with
  | [] => Ok (other_parts, date_parts)
  | np :: rest =>
      txt <- name_part_text np ;;
      if negb (PyStr.truthy txt) then name_parts_loop rest other_parts date_parts
      else
        tp <- attr_lower np "@type" ;;
        if String.eqb tp "date"
        then name_parts_loop rest other_parts (date_parts ++ [txt])
        else name_parts_loop rest (other_parts ++ [txt]) date_parts
  end.

(** The statements after the loop *)
Definition finish_name (name_node : value) (other_parts date_parts : list string)
  : string :=
  let other_parts :=
    match other_parts with
    | [] =>
        let disp := PyStr.strip (or_empty (get_text name_node [KStr "displayForm"])) in
        if PyStr.truthy disp then [disp] else []
    | _ => other_parts
    end in
  let name := PyStr.strip (PyStr.join " " other_parts) in
  match date_parts with
  | [] => name
  | _ => (name ++ " (" ++ PyStr.join "; " date_parts ++ ")")%string
  end.

Definition _display_name_with_dates (name_node : value) : result string :=
  '(other_parts, date_parts) <-
    name_parts_loop (as_list (nget name_node "namePart")) [] [] ;;
  Ok (finish_name name_node other_parts date_parts).

Definition want_codes : list string := ["aut"; "cmp"; "cre"; "prf"; "voc"].
Definition want_texts : list string :=
  ["author"; "composer"; "creator"; "performer"; "vocalist"; "singer"; "voice"].

(** The test [extract_creators] makes on one role term *)
Definition role_term_matches (rt : value) : result bool :=
  let t := PyStr.lower (PyStr.strip (or_empty (get_text rt []))) in
  is_code <- match rt with
             | VDict d =>
                 tp <- str_method PyStr.lower (py_or (get d "@type") (VStr EmptyString)) ;;
                 Ok (String.eqb tp "code")
             | _ => Ok false
             end ;;
  Ok ((is_code && mem t want_codes) || mem t want_texts).

(** The two role loops: [is_creator] after all role terms have been read *)
Definition is_creator (n : value) : result bool :=
  flags <- for_collect
             (fun role =>
                for_collect (fun rt => b <- role_term_matches rt ;; Ok [b])
                  (as_list (nget role "roleTerm")))
             (as_list (nget n "role")) ;;
  Ok (existsb (fun b => b) flags).

(** The name entries the personal-name columns read: type absent or personal *)
Definition personal_type (ntype : string) : bool :=
  negb (PyStr.truthy ntype && negb (String.eqb ntype "personal")).

(** One iteration of the loop of [extract_creators] *)
Definition creator_step (n : value) : result (list string) :=
  ntype <- attr_lower n "@type" ;;
  if negb (personal_type ntype) then Ok []
  else
    creator <- is_creator n ;;
    keep <- (if creator then Ok true
             else usage <- attr_lower n "@usage" ;; Ok (String.eqb usage "primary")) ;;
    if negb keep then Ok []
    else
      disp <- _display_name_with_dates n ;;
      if PyStr.truthy disp then Ok [disp] else Ok [].

Definition creators (mods : value) : result (list string) :=
  out <- for_collect creator_step (as_list (nget mods "name")) ;;
  Ok (PyStr.dedup out).

Definition extract_creators (mods : value) : result string :=
  out <- creators mods ;;
  Ok (PyStr.join "; " out).

(** One iteration of the loop of [extract_personal_names_split] *)
Definition personal_step (n : value) : result (list string) :=
  ntype <- attr_lower n "@type" ;;
  if negb (personal_type ntype) then Ok []
  else
    disp <- _display_name_with_dates n ;;
    if PyStr.truthy disp then Ok [disp] else Ok [].

(** [names] after de-duplication *)
Definition personal_names (mods : value) : result (list string) :=
  names <- for_collect personal_step (as_list (nget mods "name")) ;;
  Ok (PyStr.dedup names).

Definition extract_personal_names_split (mods : value)
  : result (string * string * string * string) :=
  names <- personal_names mods ;;
  let n1 := nth 0 names EmptyString in
  let n2 := nth 1 names EmptyString in
  let n3 := nth 2 names EmptyString in
  let other := if 3 <? length names then PyStr.join "; " (skipn 3 names) else EmptyString in
  Ok (n1, n2, n3, other).

(** [x == ""] *)
Definition is_empty_str (x : value) : bool :=
  match x with VStr EmptyString => true | _ => false end.

(** The test of [extract_corporate_names] on one name entry *)
Definition corporate_test (n : value) (ntype : string) : result bool :=
  if String.eqb ntype "corporate" then Ok true
  else if negb (String.eqb ntype EmptyString) then Ok false
  else if negb (some_text (get_text n [KStr "namePart"])) then Ok false
  else
    match as_list (nget n "namePart") with
    | x :: _ => Ok (negb (is_empty_str x))
    | [] => Raise IndexError
    end.

(** One iteration of the loop of [extract_corporate_names] *)
Definition corporate_step (n : value) : result (list string) :=
  ntype <- attr_lower n "@type" ;;
  corporate <- corporate_test n ntype ;;
  if corporate then
    disp <- _display_name_with_dates n ;;
    if PyStr.truthy disp then Ok [disp] else Ok []
  else Ok [].

(** [corps] after de-duplication *)
Definition corporate_names (mods : value) : result (list string) :=
  corps <- for_collect corporate_step (as_list (nget mods "name")) ;;
  Ok (PyStr.dedup corps).

Definition extract_corporate_names (mods : value) : result string :=
  corps <- corporate_names mods ;;
  Ok (PyStr.join "; " corps).

(** The loops below read text only and cannot raise. *)

Fixpoint first_text (f : value -> option string) (l : list value) : option string :=
  match l with
  | [] => None
  | x :: r => if some_text (f x) then f x else first_text f r
  end.

(** [[t] if t else []] *)
Definition text_list (o : option string) : list string :=
  if some_text o then [or_empty o] else [].

Definition extract_publisher (mods : value) : string :=
  or_empty (first_text (fun oi => get_text oi [KStr "publisher"])
                       (as_list (nget mods "originInfo"))).

Definition extract_place (mods : value) : string :=
  join_clean
    (flat_map
       (fun oi =>
          flat_map
            (fun pl =>
               let txt := get_text pl [KStr "placeTerm"] in
               if negb (some_text txt) then
                 flat_map (fun pt => text_list (get_text pt []))
                          (as_list (nget pl "placeTerm"))
               else [or_empty txt])
            (as_list (nget oi "place")))
       (as_list (nget mods "originInfo"))).

(** [for k in ks: for v in as_list(nget(node, k)): ...append(text of v)] *)
Definition texts_under (node : value) (ks : list string) : list string :=
  flat_map (fun k => flat_map (fun v => text_list (node_text v)) (as_list (nget node k))) ks.

Definition extract_date (mods : value) : string :=
  join_clean
    (flat_map (fun oi => texts_under oi ["dateIssued"; "dateCreated"; "dateOther"])
              (as_list (nget mods "originInfo"))).

Definition extract_language (mods : value) : string :=
  join_clean
    (flat_map
       (fun lang =>
          flat_map (fun lt => text_list (get_text lt [])) (as_list (nget lang "languageTerm")))
       (as_list (nget mods "language"))).

Definition extract_type_of_resource (mods : value) : string :=
  join_clean (texts_under mods ["typeOfResource"]).

Definition extract_physical_description (mods : value) : string :=
  join_clean
    (flat_map (fun pd => texts_under pd ["extent"; "form"; "note"; "internetMediaType"])
              (as_list (nget mods "physicalDescription"))).

Definition extract_keywords (mods : value) : string :=
  join_clean
    (flat_map
       (fun subj =>
          texts_under subj ["topic"; "geographic"; "temporal"; "genre"]
          ++ flat_map (fun nm => texts_under nm ["namePart"]) (as_list (nget subj "name")))
       (as_list (nget mods "subject"))).

Definition extract_repository_and_callnum (mods : value) : string * string :=
  let locs := as_list (nget mods "location") in
  (join_clean
     (flat_map
        (fun loc =>
           text_list (get_text loc [KStr "physicalLocation"])
           ++ flat_map (fun pl => text_list (get_text pl []))
                       (as_list (nget loc "physicalLocation")))
        locs),
   join_clean
     (flat_map
        (fun loc =>
           flat_map (fun sl => text_list (get_text sl [])) (as_list (nget loc "shelfLocator")))
        locs)).

(** One iteration of the loop of [extract_issue_number] *)
Definition issue_step (idn : value) : result (list string) :=
  t <- attr_lower idn "@type" ;;
  let val := node_text idn in
  if some_text val && String.eqb t "issue number" then Ok [or_empty val] else Ok [].

Definition extract_issue_number (mods : value) : result string :=
  nums <- for_collect issue_step (as_list (nget mods "identifier")) ;;
  Ok (join_clean nums).

Definition extract_record_identifier (mods : value) : string :=
  or_empty
    (first_text (fun rid => get_text rid [])
       (flat_map (fun recinfo => as_list (nget recinfo "recordIdentifier"))
                 (as_list (nget mods "recordInfo")))).

Definition find_digits (s : string) : option string :=
  match PyStr.search (Utf8.decode s) with
  | Some d => Some (Utf8.encode d)
  | None => None
  end.

(** The test of step 1 of [extract_hollis_number] on one record identifier:
    its text when the identifier is taken. *)
Definition rid_step (ridnode : value) : result (option string) :=
  let txt := or_empty (get_text ridnode []) in
  src <- attr_lower ridnode "@source" ;;
  if PyStr.truthy txt && (PyStr.contains "alma" src || PyStr.startswith "99" txt)
  then Ok (Some txt)
  else Ok None.

(** [d = find_digits(s)] guarded by [if s:] and [if d:] *)
Definition digits_in (s : option string) : option string :=
  if some_text s then
    match find_digits (or_empty s) with
    | Some d => if PyStr.truthy d then Some d else None
    | None => None
    end
  else None.

Definition rel_step (rel : value) : result (option string) :=
  Ok (digits_in (get_text rel [KStr "location"; KStr "url"])).

Definition ext_step (ext : value) : result (option string) :=
  Ok (digits_in (get_text ext [KStr "librarycloud"; KStr "originalDocument"])).

Definition extract_hollis_number (mods : value) : result string :=
  rid <- for_first
           (fun recinfo => for_first rid_step (as_list (nget recinfo "recordIdentifier")))
           (as_list (nget mods "recordInfo")) ;;
  match rid with
  | Some r => Ok r
  | None =>
      d <- for_first rel_step (as_list (nget mods "relatedItem")) ;;
      match d with
      | Some r => Ok r
      | None =>
          d <- for_first ext_step (as_list (nget mods "extension")) ;;
          match d with
          | Some r => Ok r
          | None => Ok EmptyString
          end
      end
  end.

Definition item : Type := dict.

(** [item.get("mods") or {}] *)
Definition mods_of (it : item) : value := py_or (get it "mods") (VDict []).

(** One iteration of the first loop of [extract_permalink] *)
Definition hollis_link_step (rel : value) : result (option string) :=
  oth <- attr_lower rel "@otherType" ;;
  if PyStr.contains "hollis" oth then
    let url := get_text rel [KStr "location"; KStr "url"] in
    if some_text url then Ok url else Ok None
  else Ok None.

Definition extract_permalink (it : item) : result string :=
  let mods := mods_of it in
  url <- for_first hollis_link_step (as_list (nget mods "relatedItem")) ;;
  match url with
  | Some u => Ok u
  | None =>
      Ok (or_empty
            (first_text (fun urlnode => get_text urlnode [])
               (flat_map (fun loc => as_list (nget loc "url"))
                         (as_list (nget mods "location")))))
  end.

Definition extract_tocs (mods : value) : list string :=
  texts_under mods ["tableOfContents"].

(** One iteration of the loop of [extract_notes] *)
Definition note_step (note : value) : result (list string) :=
  let txt := node_text note in
  if some_text txt then
    t <- attr_strip note "@type" ;;
    if PyStr.truthy t then Ok [(t ++ ": " ++ or_empty txt)%string] else Ok [or_empty txt]
  else Ok [].

Definition extract_notes (mods : value) : result (list string) :=
  for_collect note_step (as_list (nget mods "note")).

(** ** row builder *)

Record row : Type := mkRow {
  identifier : string;
  hollis_number : string;
  title : string;
  variant_title : string;
  creator : string;
  name1 : string;
  name2 : string;
  name3 : string;
  names_other : string;
  corporate_name : string;
  publisher : string;
  place : string;
  date : string;
  language : string;
  type_of_resource : string;
  physical_description : string;
  keyword : string;
  repository : string;
  call_number : string;
  issue_number : string;
  permalink : string;
  _tocs : list string;
  _notes : list string
}.

(** The string entries of the row mapping, in the order of the literal *)
Definition row_items (r : row) : list (string * string) :=
  [ ("identifier", identifier r); ("hollis_number", hollis_number r);
    ("title", title r); ("variant_title", variant_title r);
    ("creator", creator r); ("name1", name1 r); ("name2", name2 r);
    ("name3", name3 r); ("names_other", names_other r);
    ("corporate_name", corporate_name r); ("publisher", publisher r);
    ("place", place r); ("date", date r); ("language", language r);
    ("type_of_resource", type_of_resource r);
    ("physical_description", physical_description r); ("keyword", keyword r);
    ("repository", repository r); ("call_number", call_number r);
    ("issue_number", issue_number r); ("permalink", permalink r) ].

Definition row_from_item (it : item) : result row :=
  let mods := mods_of it in
  '(n1, n2, n3, other) <- extract_personal_names_split mods ;;
  let '(repo, callnum) := extract_repository_and_callnum mods in
  hollis <- extract_hollis_number mods ;;
  ttl <- extract_title mods ;;
  variant <- extract_variant_titles mods ;;
  crt <- extract_creators mods ;;
  corp <- extract_corporate_names mods ;;
  let pub := extract_publisher mods in
  let plc := extract_place mods in
  let dat := extract_date mods in
  let lang := extract_language mods in
  let tor := extract_type_of_resource mods in
  let phys := extract_physical_description mods in
  let kw := extract_keywords mods in
  issue <- extract_issue_number mods ;;
  link <- extract_permalink it ;;
  let first_ident := first_text node_text (as_list (nget mods "identifier")) in
  let first_ident := if some_text first_ident then or_empty first_ident else hollis in
  let tocs := extract_tocs mods in
  notes <- extract_notes mods ;;
  Ok (mkRow first_ident hollis ttl variant crt n1 n2 n3 other corp pub plc dat lang
            tor phys kw repo callnum issue link tocs notes).

Definition BASE_COLUMNS : list string :=
  [ "identifier"; "hollis_number"; "title"; "variant_title"; "creator";
    "name1"; "name2"; "name3"; "names_other"; "corporate_name"; "publisher";
    "place"; "date"; "language"; "type_of_resource"; "physical_description";
    "keyword"; "repository"; "call_number"; "issue_number"; "permalink" ].

(** ** main *)

(** A de-duplication key: a string, or the tuple (identifier, permalink) *)
Inductive key : Type :=
| KeyStr (s : string)
| KeyPair (ident link : string).

Definition key_eqb (a b : key) : bool :=
  match a, b with
  | KeyStr s, KeyStr t => String.eqb s t
  | KeyPair i p, KeyPair j q => String.eqb i j && String.eqb p q
  | _, _ => false
  end.

(** [row.get("hollis_number") or (row.get("identifier"), row.get("permalink"))] *)
Definition dedup_key (r : row) : key :=
  if PyStr.truthy (hollis_number r) then KeyStr (hollis_number r)
  else KeyPair (identifier r) (permalink r).

Record state : Type := mkState {
  rows : list row;
  max_tocs : nat;
  max_notes : nat;
  written : nat;
  seen_keys : list key
}.

Definition init : state := mkState [] 0 0 0 [].

Definition key_in (k : key) (seen : list key) : bool := existsb (key_eqb k) seen.

(** The statements of the loop body after the [continue] *)
Definition accept (st : state) (r : row) : state :=
  mkState (rows st ++ [r])
          (Nat.max (max_tocs st) (length (_tocs r)))
          (Nat.max (max_notes st) (length (_notes r)))
          (written st + 1)
          (dedup_key r :: seen_keys st).

Section Harvest.

(** [args.max_records] *)
Variable max_records : Z.

(** [written >= args.max_records] *)
Definition capped (st : state) : bool := (max_records <=? Z.of_nat (written st))%Z.

(** [for it in items: ...] *)
Fixpoint process_items (st : state) (items : list item) : result state :=
  match items with
  | [] => Ok st
  | it :: rest =>
      r <- row_from_item it ;;
      if key_in (dedup_key r) (seen_keys st) then process_items st rest
      else
        let st' := accept st r in
        if capped st' then Ok st' else process_items st' rest
  end.

(** [fetch] followed by [parse_page]: the items of the page at an offset, or
    the failure of the request. *)
Variable page : Z -> result (list item).

(** The [while True] loop; [starts] are the values [start] takes after the
    first page, those below [numFound]. *)
Fixpoint process_loop (st : state) (items : list item) (starts : list Z)
  : result state :=
  st' <- process_items st items ;;
  if capped st' then Ok st'
  else
    match starts with
    | [] => Ok st'
    | start :: later =>
        items' <- page start ;;
        match items' with
        | [] => Ok st'
        | _ => process_loop st' items' later
        end
    end.

(** [limit, 2 * limit, ...] below [num_found], the [numFound] of the first
    page *)
Definition offsets (limit num_found : Z) : list Z :=
  map (fun j => (Z.of_nat j * limit)%Z)
      (seq 1 (Z.to_nat ((num_found - 1) / limit))).

Definition harvest (page_size num_found : Z) : result state :=
  let limit := Z.max 1 (Z.min page_size 250) in
  items <- page 0%Z ;;
  process_loop init items (offsets limit num_found).

End Harvest.

(** [{"mods": m}], as [parse_page] wraps each record *)
Definition wrap (m : value) : item := [("mods", m)].

(** ** output *)

Definition numbered (prefix : string) (n : nat) : list string :=
  map (fun i => (prefix ++ PyStr.of_nat i)%string) (seq 1 n).

Definition fieldnames (st : state) : list string :=
  BASE_COLUMNS ++ numbered "toc" (max_tocs st) ++ numbered "note" (max_notes st).

(** [out[f"{prefix}{i}"] = l[i - 1] if i - 1 < len(l) else ""] for [i] in
    [range(1, n + 1)] *)
Definition expand (prefix : string) (l : list string) (n : nat)
    (out : list (string * string)) : list (string * string) :=
  fold_left
    (fun out i =>
       dict_set out (prefix ++ PyStr.of_nat i)%string
                (if i - 1 <? length l then nth (i - 1) l EmptyString else EmptyString))
    (seq 1 n) out.

(** The mapping handed to [writerow] *)
Definition out_row (st : state) (r : row) : list (string * string) :=
  let out :=
    fold_left (fun out k => dict_set out k (get_default (row_items r) k EmptyString))
              BASE_COLUMNS [] in
  let out := expand "toc" (_tocs r) (max_tocs st) out in
  expand "note" (_notes r) (max_notes st) out.

(** The cells [csv.DictWriter] writes for a mapping: one per field name *)
Definition cells (names : list string) (out : list (string * string)) : list string :=
  map (fun k => get_default out k EmptyString) names.

(** Header and data lines of the written file *)
Definition table (st : state) : list (list string) :=
  fieldnames st :: map (fun r => cells (fieldnames st) (out_row st r)) (rows st).

(** The run as a whole: the lines written for the arguments and the pages
    the service answers with *)
Definition main (max_records : Z) (page : Z -> result (list item))
    (page_size num_found : Z) : result (list (list string)) :=
  st <- harvest max_records page page_size num_found ;;
  Ok (table st).

(** ** Vocabulary of the properties *)

(** Number of colons in a key *)
Fixpoint colons (s : string) : nat :=
  match s with
  | EmptyString => 0
  | String c r => (if Ascii.eqb c ":" then 1 else 0) + colons r
  end.

(** Every mapping key of the tree is an XML qualified name: at most one
    colon, between prefix and local name. *)
Fixpoint qnames (t : value) : bool :=
  match t with
  | VDict d => forallb (fun kv => (colons (fst kv) <=? 1) && qnames (snd kv)) d
  | VList l => forallb qnames l
  | _ => true
  end.

(** A tree whose keys carry no prefix, the keys of each mapping distinct *)
Inductive clean : value -> Prop :=
| clean_none : clean VNone
| clean_str s : clean (VStr s)
| clean_int z : clean (VInt z)
| clean_list l : Forall clean l -> clean (VList l)
| clean_dict d :
    NoDup (map fst d) ->
    Forall (fun kv => colons (fst kv) = 0 /\ clean (snd kv)) d ->
    clean (VDict d).

(** One iteration of the mapping loop of [strip_ns] *)
Definition strip_entry (out : dict) (kv : string * value) : dict :=
  dict_set out (strip_key (fst kv)) (strip_ns (snd kv)).

(** The record identifiers of all record-info groups, in document order *)
Definition record_identifiers (mods : value) : list value :=
  flat_map (fun recinfo => as_list (nget recinfo "recordIdentifier"))
           (as_list (nget mods "recordInfo")).

(** The URL of a related item, and the original-document reference of an
    extension *)
Definition related_url (rel : value) : option string :=
  get_text rel [KStr "location"; KStr "url"].

Definition original_document (ext : value) : option string :=
  get_text ext [KStr "librarycloud"; KStr "originalDocument"].

(** A decimal digit: one of the ten code points that start at the zero of
    a script (0 to 9, the Arabic-Indic digits, the Devanagari digits, ...) *)
Definition decimal_digit (c : N) : Prop :=
  exists zero,
    In zero
       [48; 1632; 1776; 1984; 2406; 2534; 2662; 2790; 2918; 3046; 3174; 3302;
        3430; 3558; 3664; 3792; 3872; 4160; 4240; 6112; 6160; 6470; 6608; 6784;
        6800; 6992; 7088; 7232; 7248; 42528; 43216; 43264; 43472; 43504; 43600;
        44016; 65296; 66720; 68912; 69734; 69872; 69942; 70096; 70384; 70736;
        70864; 71248; 71360; 71472; 71904; 72016; 72784; 73040; 73120; 92768;
        92864; 93008; 120782; 120792; 120802; 120812; 120822; 123200; 123632;
        125264; 130032]%N /\
    (zero <= c < zero + 10)%N.

(** [post] does not go on with a digit *)
Definition run_ends (post : list N) : Prop :=
  forall c r, post = c :: r -> ~ decimal_digit c.

(** [run] is the match of [99\d{14,}] at the start of the code points
    [rest]: "99", then a maximal run of at least 14 further digits. *)
Definition digit_run (rest run : list N) : Prop :=
  exists ds post,
    rest = 57%N :: 57%N :: ds ++ post /\ run = 57%N :: 57%N :: ds /\
    Forall decimal_digit ds /\ 14 <= length ds /\ run_ends post.

(** White space: a code point [str.isspace()] holds of.  The ASCII controls
    and the space, NEL, the no-break space, the Ogham space mark, the
    spaces U+2000 to U+200A, the line and paragraph separators, the narrow
    no-break space, the medium mathematical space, the ideographic space. *)
Definition space_point (c : N) : Prop :=
  (9 <= c <= 13 \/ 28 <= c <= 32 \/ c = 133 \/ c = 160 \/ c = 5760 \/
   8192 <= c <= 8202 \/ c = 8232 \/ c = 8233 \/ c = 8239 \/ c = 8287 \/
   c = 12288)%N.

(** [middle] is [l] without the white space at its two ends *)
Definition trimmed (l middle : list N) : Prop :=
  exists lead trail,
    l = lead ++ middle ++ trail /\
    Forall space_point lead /\ Forall space_point trail /\
    (forall c r, middle = c :: r -> ~ space_point c) /\
    (forall c r, middle = r ++ [c] -> ~ space_point c).

(** What [_display_name_with_dates] reads from a name-part: its trimmed
    text and, when that is non-empty, its lower-cased type attribute. *)
Definition part_reads (np : value) (p : string * string) : Prop :=
  name_part_text np = Ok (snd p) /\
  (snd p = EmptyString \/ attr_lower np "@type" = Ok (fst p)).

(** The texts of the name-parts that are not dates, and of those that are,
    in document order *)
Definition non_date_texts (parts : list (string * string)) : list string :=
  map snd (filter (fun p => PyStr.truthy (snd p) && negb (String.eqb (fst p) "date")) parts).

Definition date_texts (parts : list (string * string)) : list string :=
  map snd (filter (fun p => PyStr.truthy (snd p) && String.eqb (fst p) "date") parts).

(** The positional personal-name columns of a row hold [x]: it is one of
    name1, name2, name3, or one of the names joined into names_other. *)
Definition in_name_columns (x : string) (names : list string) (r : row) : Prop :=
  name1 r = nth 0 names EmptyString /\
  name2 r = nth 1 names EmptyString /\
  name3 r = nth 2 names EmptyString /\
  names_other r = (if 3 <? length names then PyStr.join "; " (skipn 3 names)
                   else EmptyString) /\
  (x = name1 r \/ x = name2 r \/ x = name3 r \/ In x (skipn 3 names)).

(** The display form is used only when no non-date name-part has text. *)
Definition display_form_fallback (name_node : value) : list string :=
  let disp := PyStr.strip (or_empty (get_text name_node [KStr "displayForm"])) in
  if PyStr.truthy disp then [disp] else [].

(** The accumulators of [main] agree with the accepted rows. *)
Record coherent (st : state) : Prop := {
  seen_rows : seen_keys st = rev (map dedup_key (rows st));
  distinct_keys : NoDup (map dedup_key (rows st));
  written_rows : written st = length (rows st);
  tocs_max : max_tocs st = list_max (map (fun r => length (_tocs r)) (rows st));
  notes_max : max_notes st = list_max (map (fun r => length (_notes r)) (rows st))
}.

(** A list padded with empty strings up to [n] entries *)
Definition padded (l : list string) (n : nat) : list string :=
  l ++ repeat EmptyString (n - length l).

(** The rows of a sequence of records, in order *)
Definition rows_of (items : list item) : result (list row) :=
  for_collect (fun it => r <- row_from_item it ;; Ok [r]) items.

(** The rows whose key is neither in [seen] nor the key of an earlier row *)
Fixpoint first_by_key (seen : list key) (rs : list row) : list row :=
  match rs with
  | [] => []
  | r :: rest =>
      if key_in (dedup_key r) seen then first_by_key seen rest
      else r :: first_by_key (dedup_key r :: seen) rest
  end.

(** A computation that raises no exception other than [e0] *)
Definition raises_only (e0 : exn) {A : Type} (m : result A) : Prop :=
  forall e, m = Raise e -> e = e0.

Definition is_str (v : value) : bool :=
  match v with VStr _ => true | _ => false end.

(** Every attribute of the tree (a key that starts with "@") holds a
    string, as in what [xmltodict] makes of an XML document. *)
Fixpoint attrs_text (t : value) : bool :=
  match t with
  | VDict d =>
      forallb (fun kv => (if PyStr.startswith "@" (fst kv) then is_str (snd kv) else true)
                         && attrs_text (snd kv)) d
  | VList l => forallb attrs_text l
  | _ => true
  end.

(** The leaves of the tree are strings and [None], as in what [xmltodict]
    makes of an XML document: no number is among them. *)
Fixpoint parsed_text (t : value) : bool :=
  match t with
  | VInt _ => false
  | VDict d => forallb (fun kv => parsed_text (snd kv)) d
  | VList l => forallb parsed_text l
  | _ => true
  end.

(** A name-part that is a mapping has text *)
Definition part_has_text (np : value) : bool :=
  match np with
  | VDict _ => match get_text np [] with Some _ => true | None => false end
  | _ => true
  end.

Definition name_parts_have_text (mods : value) : Prop :=
  Forall (fun n => Forall (fun np => part_has_text np = true) (as_list (nget n "namePart")))
         (as_list (nget mods "name")).

(** * Properties *)

(** ** Induction over the parsed document *)

Section ValueInduction.

Variable P : value -> Prop.
Hypothesis P_none : P VNone.
Hypothesis P_str : forall s, P (VStr s).
Hypothesis P_int : forall z, P (VInt z).
Hypothesis P_list : forall l, Forall P l -> P (VList l).
Hypothesis P_dict : forall d, Forall (fun kv => P (snd kv)) d -> P (VDict d).

Fixpoint value_ind_nested (v : value) : P v :=
  match v with
  | VNone => P_none
  | VStr s => P_str s
  | VInt z => P_int z
  | VList l =>
      P_list l
        ((fix all (l : list value) : Forall P l :=
            match l with
            | [] => Forall_nil P
            | x :: r => Forall_cons x (value_ind_nested x) (all r)
            end) l)
  | VDict d =>
      P_dict d
        ((fix all (d : list (string * value)) : Forall (fun kv => P (snd kv)) d :=
            match d with
            | [] => Forall_nil _
            | kv :: r => Forall_cons kv (value_ind_nested (snd kv)) (all r)
            end) d)
  end.

End ValueInduction.

(** ** Mappings *)

Section MappingFacts.

Context {V : Type}.
Implicit Types (d : list (string * V)) (k : string) (v : V).

Lemma dict_get_set d k v k' :
  dict_get (dict_set d k v) k' = if String.eqb k k' then Some v else dict_get d k'.
Proof.
  induction d as [|[k0 v0] d IH]; simpl.
  - reflexivity.
  - destruct (String.eqb k0 k) eqn:E0; simpl.
    + apply String.eqb_eq in E0; subst k0.
      destruct (String.eqb k k'); reflexivity.
    + destruct (String.eqb k0 k') eqn:E1.
      * apply String.eqb_eq in E1; subst k0.
        rewrite (String.eqb_sym k k'), E0. reflexivity.
      * exact IH.
Qed.

Lemma dict_set_fresh d k v :
  ~ In k (map fst d) -> dict_set d k v = d ++ [(k, v)].
Proof.
  induction d as [|[k0 v0] d IH]; simpl; intros Hn.
  - reflexivity.
  - destruct (String.eqb k0 k) eqn:E.
    + apply String.eqb_eq in E. tauto.
    + rewrite IH; tauto.
Qed.

Lemma dict_set_keys d k v :
  map fst (dict_set d k v) = if existsb (String.eqb k) (map fst d)
                             then map fst d else map fst d ++ [k].
Proof.
  induction d as [|[k0 v0] d IH]; simpl.
  - reflexivity.
  - rewrite (String.eqb_sym k k0).
    destruct (String.eqb k0 k) eqn:E; simpl.
    + apply String.eqb_eq in E; subst. reflexivity.
    + rewrite IH. destruct (existsb _ _); reflexivity.
Qed.

Lemma dict_set_NoDup d k v : NoDup (map fst d) -> NoDup (map fst (dict_set d k v)).
Proof.
  intros Hd. rewrite dict_set_keys.
  destruct (existsb (String.eqb k) (map fst d)) eqn:E; [exact Hd|].
  apply NoDup_app; [exact Hd | repeat constructor; simpl; tauto |].
  intros a Ha [Hk|[]]. subst a.
  assert (existsb (String.eqb k) (map fst d) = true); [|congruence].
  apply existsb_exists. exists k. split; [exact Ha | apply String.eqb_refl].
Qed.

Lemma dict_set_Forall (Q : string * V -> Prop) d k v :
  Forall Q d -> Q (k, v) -> Forall Q (dict_set d k v).
Proof.
  induction 1 as [|[k0 v0] d H0 Hd IH]; simpl; intros Hq.
  - constructor; [exact Hq | constructor].
  - destruct (String.eqb k0 k); constructor; auto.
Qed.

End MappingFacts.

(** ** Tree normalisation *)

Lemma contains_colon s : PyStr.contains ":" s = negb (colons s =? 0).
Proof.
  induction s as [|c r IH]; [reflexivity|].
  cbn [PyStr.contains colons PyStr.startswith].
  rewrite IH, (Ascii.eqb_sym ":" c).
  destruct (Ascii.eqb c ":"); reflexivity.
Qed.

Lemma split1_colon s :
  match PyStr.split1 ":" s with
  | [whole] => colons s = 0 /\ whole = s
  | [_; after] => colons s = S (colons after)
  | _ => False
  end.
Proof.
  induction s as [|c r IH]; simpl.
  - split; reflexivity.
  - destruct (Ascii.eqb c ":") eqn:E; [reflexivity|].
    destruct (PyStr.split1 ":" r) as [|h [|a [|b t]]]; try contradiction.
    + destruct IH as [H0 Hh]. split; [exact H0 | congruence].
    + exact IH.
Qed.

Lemma strip_key_plain k : colons k = 0 -> strip_key k = k.
Proof.
  intros H. unfold strip_key. rewrite contains_colon, H. reflexivity.
Qed.

Lemma strip_key_qname k : colons k <= 1 -> colons (strip_key k) = 0.
Proof.
  intros H. destruct (colons k) as [|n] eqn:E.
  - rewrite strip_key_plain; assumption.
  - unfold strip_key. rewrite contains_colon, E. simpl.
    pose proof (split1_colon k) as Hs.
    destruct (PyStr.split1 ":" k) as [|h [|a [|b t]]]; try contradiction.
    + destruct Hs as [H0 _]. congruence.
    + simpl. lia.
Qed.

Lemma strip_ns_dict d : strip_ns (VDict d) = VDict (fold_left strip_entry d []).
Proof.
  simpl. f_equal. generalize (@nil (string * value)) as out.
  induction d as [|[k v] d IH]; intros out; [reflexivity|].
  simpl. rewrite IH. reflexivity.
Qed.

Lemma strip_entries_clean d : forall out,
  Forall (fun kv => colons (fst kv) <= 1 /\ clean (strip_ns (snd kv))) d ->
  NoDup (map fst out) ->
  Forall (fun kv => colons (fst kv) = 0 /\ clean (snd kv)) out ->
  NoDup (map fst (fold_left strip_entry d out)) /\
  Forall (fun kv => colons (fst kv) = 0 /\ clean (snd kv)) (fold_left strip_entry d out).
Proof.
  induction d as [|[k v] d IH]; intros out Hd Hn Ho; simpl.
  - split; assumption.
  - inversion Hd as [|? ? [Hk Hv] Hd']; subst. simpl in Hk, Hv.
    apply IH; [exact Hd' | | ].
    + apply dict_set_NoDup. exact Hn.
    + apply dict_set_Forall; [exact Ho|].
      simpl. split; [apply strip_key_qname; exact Hk | exact Hv].
Qed.

(** Normalising a tree of qualified names leaves no prefix behind. *)
Lemma strip_ns_clean t : qnames t = true -> clean (strip_ns t).
Proof.
  induction t as [| | |l IH|d IH] using value_ind_nested; intros Hq.
  - constructor.
  - constructor.
  - constructor.
  - simpl. constructor. simpl in Hq. rewrite forallb_forall in Hq.
    rewrite Forall_forall in IH |- *.
    intros x Hx. apply in_map_iff in Hx. destruct Hx as [y [<- Hy]]. auto.
  - rewrite strip_ns_dict.
    assert (Hd : Forall (fun kv => colons (fst kv) <= 1 /\ clean (strip_ns (snd kv))) d).
    { simpl in Hq. rewrite forallb_forall in Hq.
      rewrite Forall_forall in IH |- *. intros kv Hkv.
      specialize (Hq kv Hkv). apply andb_prop in Hq. destruct Hq as [Hk Hv].
      split; [apply Nat.leb_le; exact Hk | apply IH; assumption]. }
    destruct (strip_entries_clean d [] Hd) as [Hn Hf];
      [constructor | constructor |].
    constructor; assumption.
Qed.

Lemma strip_entries_fixed d : forall out,
  Forall (fun kv => colons (fst kv) = 0 /\ strip_ns (snd kv) = snd kv) d ->
  NoDup (map fst (out ++ d)) ->
  fold_left strip_entry d out = out ++ d.
Proof.
  induction d as [|[k v] d IH]; intros out Hd Hn; simpl.
  - rewrite app_nil_r. reflexivity.
  - inversion Hd as [|? ? [Hk Hv] Hd']; subst. simpl in Hk, Hv.
    unfold strip_entry at 2. simpl. rewrite (strip_key_plain k Hk), Hv.
    rewrite dict_set_fresh.
    + rewrite IH; [rewrite <- app_assoc; reflexivity | exact Hd' |].
      rewrite <- app_assoc. exact Hn.
    + rewrite map_app in Hn. simpl in Hn.
      apply NoDup_remove_2 in Hn. intros Hin. apply Hn.
      apply in_or_app. left. exact Hin.
Qed.

(** A tree without prefixes is a fixed point of the normaliser. *)
Lemma strip_ns_fixed t : clean t -> strip_ns t = t.
Proof.
  induction t as [| | |l IH|d IH] using value_ind_nested; intros Hc;
    try reflexivity.
  - inversion Hc as [| | |? Hl|]; subst. simpl. f_equal.
    rewrite <- (map_id l) at 2. apply map_ext_in.
    rewrite Forall_forall in IH, Hl. auto.
  - inversion Hc as [| | | |? Hn Hf]; subst. rewrite strip_ns_dict. f_equal.
    apply (strip_entries_fixed d []); [|exact Hn].
    rewrite Forall_forall in IH, Hf |- *. intros kv Hkv.
    destruct (Hf kv Hkv) as [Hk Hv]. split; [exact Hk | apply IH; assumption].
Qed.

(** C6, amended.  Normalising twice gives the same tree as normalising once
    for every tree whose mapping keys are qualified names, that is, contain
    at most one colon. *)
Theorem strip_ns_idempotent_qnames (t : value) :
  qnames t = true -> strip_ns (strip_ns t) = strip_ns t.
Proof.
  intros Hq. apply strip_ns_fixed. apply strip_ns_clean. exact Hq.
Qed.

Lemma strip_ns_idempotent_qnames_witness :
  let t := VDict [("mods:titleInfo", VList [VDict [("mods:title", VStr "Store")]]);
                  ("titleInfo", VStr "x")] in
  qnames t = true /\ strip_ns (strip_ns t) = strip_ns t.
Proof.
  split; [reflexivity | apply strip_ns_idempotent_qnames; reflexivity].
Defined.

(** C6 as stated fails: the normaliser removes the text before the first
    colon only, so a key with two colons loses one prefix per pass. *)
Lemma strip_ns_not_idempotent :
  let t := VDict [("a:b:c", VStr "x")] in
  strip_ns t = VDict [("b:c", VStr "x")] /\
  strip_ns (strip_ns t) = VDict [("c", VStr "x")] /\
  strip_ns (strip_ns t) <> strip_ns t.
Proof.
  repeat split. discriminate.
Qed.

(** ** Namespace-insensitive lookup *)

Lemma split_plain s : colons s = 0 -> PyStr.split ":" s = [s].
Proof.
  induction s as [|c r IH]; simpl; intros H; [reflexivity|].
  destruct (Ascii.eqb c ":"); [discriminate|].
  rewrite IH; [reflexivity | exact H].
Qed.

Lemma split_colon s :
  0 < colons s -> exists h x t, PyStr.split ":" s = h :: x :: t.
Proof.
  induction s as [|c r IH]; simpl; intros H; [lia|].
  destruct (Ascii.eqb c ":").
  - destruct r as [|c' r'].
    + exists EmptyString, EmptyString, []. reflexivity.
    + destruct (PyStr.split ":" (String c' r')) as [|h t] eqn:E.
      * simpl in E. destruct (Ascii.eqb c' ":"); [discriminate|].
        destruct (PyStr.split ":" r'); discriminate.
      * exists EmptyString, h, t. reflexivity.
  - destruct (IH H) as [h [x [t ->]]]. exists (String c h), x, t. reflexivity.
Qed.

Lemma local_name_plain k : colons k = 0 -> local_name k = k.
Proof.
  intros H. unfold local_name. rewrite split_plain; [reflexivity | exact H].
Qed.

Lemma local_name_cons c s :
  0 < colons s -> local_name (String c s) = local_name s.
Proof.
  intros H. unfold local_name. simpl.
  destruct (split_colon s H) as [h [x [t ->]]].
  destruct (Ascii.eqb c ":"); reflexivity.
Qed.

Lemma colons_app a b : colons (a ++ b) = colons a + colons b.
Proof.
  induction a as [|c a IH]; simpl; [reflexivity | rewrite IH; lia].
Qed.

(** The local name is the text after the last colon. *)
Lemma local_name_suffix p l :
  colons l = 0 -> local_name (p ++ ":" ++ l) = l.
Proof.
  intros Hl. induction p as [|c p IH].
  - simpl. unfold local_name. simpl. rewrite split_plain; [reflexivity | exact Hl].
  - change (String c p ++ ":" ++ l)%string with (String c (p ++ ":" ++ l)).
    rewrite local_name_cons; [exact IH|].
    rewrite colons_app. simpl. lia.
Qed.

Lemma dict_get_None {V : Type} (d : list (string * V)) k :
  dict_get d k = None <-> ~ In k (map fst d).
Proof.
  induction d as [|[k0 v0] d IH]; simpl.
  - tauto.
  - destruct (String.eqb k0 k) eqn:E.
    + apply String.eqb_eq in E. split; [discriminate | tauto].
    + apply String.eqb_neq in E. rewrite IH. tauto.
Qed.

Lemma suffix_lookup_first pre k v post key :
  Forall (fun kv => local_name (fst kv) <> key) pre ->
  local_name k = key ->
  suffix_lookup (pre ++ (k, v) :: post) key = Some v.
Proof.
  intros Hpre Hk. induction Hpre as [|[k0 v0] pre H0 _ IH]; simpl.
  - rewrite Hk, String.eqb_refl. reflexivity.
  - apply String.eqb_neq in H0. simpl in H0. rewrite H0. exact IH.
Qed.

Lemma suffix_lookup_none m key :
  Forall (fun kv => local_name (fst kv) <> key) m -> suffix_lookup m key = None.
Proof.
  induction 1 as [|[k0 v0] m H0 _ IH]; simpl; [reflexivity|].
  apply String.eqb_neq in H0. simpl in H0. rewrite H0. exact IH.
Qed.

(** C7.  On a mapping, [nget] returns the value stored at the exact key when
    the key is present; otherwise the value of the first key, in mapping
    order, whose local name (the text after its last colon) is the queried
    key; and [None] when no key matches.  So a mapping holding both the
    prefixed and the unprefixed form of a name answers both queries with the
    value stored there. *)
Theorem nget_spec (m : dict) (key : string) :
  (forall v, dict_get m key = Some v -> nget (VDict m) key = v) /\
  (~ In key (keys m) ->
   forall pre k v post,
     m = pre ++ (k, v) :: post ->
     Forall (fun kv => local_name (fst kv) <> key) pre ->
     local_name k = key ->
     nget (VDict m) key = v) /\
  (~ In key (keys m) ->
   Forall (fun kv => local_name (fst kv) <> key) m ->
   nget (VDict m) key = VNone) /\
  (forall p l, colons l = 0 ->
     local_name l = l /\ local_name (p ++ ":" ++ l) = l) /\
  (forall p vp vl,
     dict_get m (p ++ ":" ++ key) = Some vp ->
     dict_get m key = Some vl ->
     nget (VDict m) (p ++ ":" ++ key) = vp /\ nget (VDict m) key = vl).
Proof.
  repeat split.
  - intros v Hv. simpl. rewrite Hv. reflexivity.
  - intros Hn pre k v post -> Hpre Hk. simpl.
    apply dict_get_None in Hn. rewrite Hn.
    rewrite (suffix_lookup_first pre k v post key Hpre Hk). reflexivity.
  - intros Hn Hall. simpl. apply dict_get_None in Hn. rewrite Hn.
    rewrite (suffix_lookup_none m key Hall). reflexivity.
  - apply local_name_plain. assumption.
  - apply local_name_suffix. assumption.
  - unfold nget. rewrite H. reflexivity.
  - unfold nget. rewrite H0. reflexivity.
Qed.

Lemma nget_spec_witness :
  let m := [("mods:title", VStr "1"); ("dc:title", VStr "2"); ("title", VNone)] in
  nget (VDict m) "mods:title" = VStr "1" /\
  nget (VDict m) "title" = VNone /\
  nget (VDict [("mods:title", VStr "1"); ("dc:title", VStr "2")]) "title" = VStr "1".
Proof.
  intros m. split; [|split].
  - apply (proj2 (proj2 (proj2 (proj2 (nget_spec m "title")))) "mods" (VStr "1") VNone);
      reflexivity.
  - apply (proj1 (nget_spec m "title")). reflexivity.
  - apply (proj1 (proj2 (nget_spec [("mods:title", VStr "1"); ("dc:title", VStr "2")]
                                      "title"))
             (fun H => match H with
                       | or_introl E => ltac:(discriminate E)
                       | or_intror (or_introl E) => ltac:(discriminate E)
                       | or_intror (or_intror F) => F
                       end)
             [] "mods:title" (VStr "1") [("dc:title", VStr "2")]);
      [reflexivity | constructor | reflexivity].
Defined.

(** ** Loops in the error monad *)

Lemma bind_Ok {A B : Type} (m : result A) (k : A -> result B) (b : B) :
  bind m k = Ok b -> exists a, m = Ok a /\ k a = Ok b.
Proof.
  destruct m as [a|e]; simpl; intros H; [eauto | discriminate].
Qed.

Ltac bind_inv H :=
  let a := fresh "a" in
  let Ha := fresh "H" a in
  apply bind_Ok in H; destruct H as [a [Ha H]].

Lemma mem_In s l : mem s l = true <-> In s l.
Proof.
  unfold mem. rewrite existsb_exists. split.
  - intros [x [Hx E]]. apply String.eqb_eq in E. subst. exact Hx.
  - intros H. exists s. split; [exact H | apply String.eqb_refl].
Qed.

Lemma truthy_nonempty s : PyStr.truthy s = true <-> s <> EmptyString.
Proof.
  destruct s; simpl; split; intros H; congruence.
Qed.

Section Loops.

Context {A B : Type}.

Lemma for_collect_app (body : A -> result (list B)) l1 l2 :
  for_collect body (l1 ++ l2) =
  (ys <- for_collect body l1 ;; zs <- for_collect body l2 ;; Ok (ys ++ zs)).
Proof.
  induction l1 as [|x l1 IH]; simpl.
  - destruct (for_collect body l2); reflexivity.
  - destruct (body x) as [ys|e]; simpl; [|reflexivity].
    rewrite IH. destruct (for_collect body l1) as [zs|e]; simpl; [|reflexivity].
    destruct (for_collect body l2) as [ws|e]; simpl; [|reflexivity].
    rewrite app_assoc. reflexivity.
Qed.

Lemma for_collect_skipped (body : A -> result (list B)) l :
  Forall (fun x => body x = Ok []) l -> for_collect body l = Ok [].
Proof.
  induction 1 as [|x l Hx _ IH]; simpl; [reflexivity|].
  rewrite Hx, IH. reflexivity.
Qed.

(** What an iteration appends is part of the collected output. *)
Lemma for_collect_In (body : A -> result (list B)) l out x ys b :
  for_collect body l = Ok out -> In x l -> body x = Ok ys -> In b ys -> In b out.
Proof.
  revert out. induction l as [|y l IH]; simpl; intros out H Hx Hy Hb; [contradiction|].
  bind_inv H. bind_inv H. injection H as <-. apply in_or_app.
  destruct Hx as [->|Hx].
  - left. congruence.
  - right. eapply IH; eauto.
Qed.

(** Everything collected was appended by some iteration. *)
Lemma for_collect_from (body : A -> result (list B)) l out b :
  for_collect body l = Ok out -> In b out ->
  exists x ys, In x l /\ body x = Ok ys /\ In b ys.
Proof.
  revert out. induction l as [|y l IH]; simpl; intros out H Hb.
  - injection H as <-. contradiction.
  - bind_inv H. bind_inv H. injection H as <-.
    apply in_app_or in Hb. destruct Hb as [Hb|Hb].
    + exists y, a. auto.
    + destruct (IH _ Ha0 Hb) as [x [ys [Hx [Hy Hin]]]]. exists x, ys. auto.
Qed.

Lemma for_first_found (body : A -> result (option B)) pre x post b :
  Forall (fun y => body y = Ok None) pre ->
  body x = Ok (Some b) ->
  for_first body (pre ++ x :: post) = Ok (Some b).
Proof.
  induction 1 as [|y pre Hy _ IH]; simpl; intros Hx.
  - rewrite Hx. reflexivity.
  - rewrite Hy. simpl. auto.
Qed.

Lemma for_first_none (body : A -> result (option B)) l :
  Forall (fun y => body y = Ok None) l -> for_first body l = Ok None.
Proof.
  induction 1 as [|y l Hy _ IH]; simpl; [reflexivity|].
  rewrite Hy. exact IH.
Qed.

Lemma for_first_app (body : A -> result (option B)) l1 l2 :
  for_first body (l1 ++ l2) =
  (y <- for_first body l1 ;;
   match y with
   | Some b => Ok (Some b)
   | None => for_first body l2
   end).
Proof.
  induction l1 as [|x l1 IH]; simpl; [reflexivity|].
  destruct (body x) as [[b|]|e]; simpl; auto.
Qed.

End Loops.

(** A nested search loop left at the first hit reads the inner sequences in
    document order. *)
Lemma for_first_nested {A B C : Type} (inner : A -> list B)
    (body : B -> result (option C)) (l : list A) :
  for_first (fun x => for_first body (inner x)) l = for_first body (flat_map inner l).
Proof.
  induction l as [|x l IH]; simpl; [reflexivity|].
  rewrite for_first_app, IH. reflexivity.
Qed.

(** ** Titles *)

Lemma append_assoc (a b c : string) : ((a ++ b) ++ c = a ++ (b ++ c))%string.
Proof.
  induction a as [|x a IH]; simpl; [reflexivity | rewrite IH; reflexivity].
Qed.

Lemma compose_title_forms non t sub :
  non <> EmptyString -> t <> EmptyString -> sub <> EmptyString ->
  compose_title (Some non) (Some t) (Some sub) = (non ++ " " ++ t ++ ": " ++ sub)%string /\
  compose_title (Some non) (Some t) None = (non ++ " " ++ t)%string /\
  compose_title None (Some t) (Some sub) = (t ++ ": " ++ sub)%string /\
  compose_title None (Some t) None = t.
Proof.
  intros Hn Ht Hs. apply truthy_nonempty in Hn, Ht, Hs.
  unfold compose_title, present, some_text, or_empty. simpl.
  rewrite Hn, Ht, Hs. simpl.
  repeat split; try reflexivity.
  rewrite !append_assoc. reflexivity.
Qed.

Lemma truthy_append a b :
  PyStr.truthy b = true -> PyStr.truthy (a ++ b) = true.
Proof.
  destruct a; simpl; auto.
Qed.

(** The composed title, written out: the nonSort text and a space when
    there is one, the title, and ": " with the subtitle when there is one *)
Lemma compose_title_text non t sub :
  some_text t = true ->
  compose_title non t sub
  = ((if some_text non then or_empty non ++ " " else EmptyString)
     ++ or_empty t
     ++ (if some_text sub then ": " ++ or_empty sub else EmptyString))%string.
Proof.
  intros Ht. unfold compose_title, present. cbn [flat_map]. rewrite Ht.
  assert (Hnil : forall x : string, (x ++ EmptyString)%string = x).
  { induction x as [|c r IH]; simpl; [reflexivity | rewrite IH; reflexivity]. }
  destruct (some_text non), (some_text sub);
    cbn [List.app PyStr.join String.concat];
    rewrite ?append_assoc, ?Hnil; reflexivity.
Qed.

Lemma title_step_rule ti ttype :
  attr_lower ti "@type" = Ok ttype ->
  let t := get_text ti [KStr "title"] in
  let non := get_text ti [KStr "nonSort"] in
  let sub := get_text ti [KStr "subTitle"] in
  (some_text t = true -> ttype = EmptyString \/ ttype = "translated" ->
   title_step ti
   = Ok [((if some_text non then or_empty non ++ " " else EmptyString)
          ++ or_empty t
          ++ (if some_text sub then ": " ++ or_empty sub else EmptyString))%string]) /\
  (some_text t = false \/ (ttype <> EmptyString /\ ttype <> "translated") ->
   title_step ti = Ok []).
Proof.
  intros Ha t non sub. unfold title_step. rewrite Ha. cbn [bind].
  fold t non sub. split.
  - intros Ht Hty. rewrite Ht. cbn [andb].
    assert (Hm : mem ttype [EmptyString; "translated"] = true).
    { apply mem_In. simpl. destruct Hty as [->| ->]; auto. }
    rewrite Hm, (compose_title_text non t sub Ht). reflexivity.
  - intros [Ht | [H1 H2]].
    + rewrite Ht. reflexivity.
    + assert (Hm : mem ttype [EmptyString; "translated"] = false).
      { destruct (mem ttype [EmptyString; "translated"]) eqn:E; [|reflexivity].
        apply mem_In in E. simpl in E. destruct E as [E|[E|[]]]; congruence. }
      rewrite Hm, andb_false_r. reflexivity.
Qed.

Lemma title_step_readable ti ttype :
  attr_lower ti "@type" = Ok ttype -> exists out, title_step ti = Ok out.
Proof.
  intros Ha. unfold title_step. rewrite Ha. cbn [bind].
  destruct (_ && _); eauto.
Qed.

Lemma extract_title_first mods pre ti post s :
  as_list (nget mods "titleInfo") = pre ++ ti :: post ->
  Forall (fun x => title_step x = Ok []) pre ->
  title_step ti = Ok [s] ->
  Forall (fun x => exists ttype, attr_lower x "@type" = Ok ttype) post ->
  extract_title mods = Ok s.
Proof.
  intros Hl Hpre Hti Hpost. unfold extract_title.
  assert (Hrest : exists rest, for_collect title_step post = Ok rest).
  { clear Hl. induction post as [|x l IH]; [exists []; reflexivity|].
    inversion Hpost as [|? ? [ty Hx] Hl']; subst.
    destruct (IH Hl') as [rest Hrest].
    destruct (title_step_readable x ty Hx) as [out Hout].
    exists (out ++ rest). simpl. rewrite Hout, Hrest. reflexivity. }
  destruct Hrest as [rest Hrest].
  rewrite Hl, for_collect_app, (for_collect_skipped _ _ Hpre). simpl.
  rewrite Hti, Hrest. reflexivity.
Qed.

(** C2.  The Title extractor takes a title-group entry exactly when its
    type attribute, lower-cased, is empty (absent) or "translated" and its
    title has text.  The entry then reads: the nonSort text and a space when
    there is one, the title, and ": " with the subtitle when there is one.
    The result is the first entry taken, and the empty string when none is.
    On the entries (uniform "X"), ("The", "Store", "A Novel") the title is
    "The Store: A Novel" and the variant title "X". *)
Theorem extract_title_spec (mods : value) :
  (forall ti ttype,
     attr_lower ti "@type" = Ok ttype ->
     let t := get_text ti [KStr "title"] in
     let non := get_text ti [KStr "nonSort"] in
     let sub := get_text ti [KStr "subTitle"] in
     (some_text t = true -> ttype = EmptyString \/ ttype = "translated" ->
      title_step ti
      = Ok [((if some_text non then or_empty non ++ " " else EmptyString)
             ++ or_empty t
             ++ (if some_text sub then ": " ++ or_empty sub else EmptyString))%string]) /\
     (some_text t = false \/ (ttype <> EmptyString /\ ttype <> "translated") ->
      title_step ti = Ok [])) /\
  (forall pre ti post s,
     as_list (nget mods "titleInfo") = pre ++ ti :: post ->
     Forall (fun x => title_step x = Ok []) pre ->
     title_step ti = Ok [s] ->
     Forall (fun x => exists ttype, attr_lower x "@type" = Ok ttype) post ->
     extract_title mods = Ok s) /\
  (Forall (fun x => title_step x = Ok []) (as_list (nget mods "titleInfo")) ->
   extract_title mods = Ok EmptyString) /\
  (let entries l := VDict [("titleInfo", VList l)] in
   let uniform := VDict [("@type", VStr "uniform"); ("title", VStr "X")] in
   let main := VDict [("nonSort", VStr "The"); ("title", VStr "Store");
                      ("subTitle", VStr "A Novel")] in
   extract_title (entries [uniform; main]) = Ok "The Store: A Novel" /\
   extract_variant_titles (entries [uniform; main]) = Ok "X" /\
   extract_title (entries [VDict [("title", VStr "Store"); ("subTitle", VStr "A Novel")]])
   = Ok "Store: A Novel" /\
   extract_title (entries [VDict [("@type", VStr "Translated"); ("title", VStr "Le magasin")];
                           main])
   = Ok "Le magasin" /\
   extract_title (entries [uniform; VDict [("@type", VStr "abbreviated"); ("title", VStr "St.")]])
   = Ok EmptyString).
Proof.
  split; [exact title_step_rule|].
  split; [exact (extract_title_first mods)|].
  split.
  - intros H. unfold extract_title. rewrite (for_collect_skipped _ _ H). reflexivity.
  - cbv zeta. repeat split.
Qed.

Lemma extract_title_spec_witness :
  let uniform := VDict [("@type", VStr "uniform"); ("title", VStr "X")] in
  let main := VDict [("nonSort", VStr "The"); ("title", VStr "Store");
                     ("subTitle", VStr "A Novel")] in
  let other := VDict [("@type", VStr "Translated"); ("title", VStr "Le magasin")] in
  title_step other = Ok ["Le magasin"] /\
  title_step uniform = Ok [] /\
  extract_title (VDict [("titleInfo", VList [uniform; main; other])])
  = Ok "The Store: A Novel".
Proof.
  intros uniform main other. split; [|split].
  - apply (proj1 (proj1 (extract_title_spec VNone) other "translated" eq_refl));
      [reflexivity | right; reflexivity].
  - apply (proj2 (proj1 (extract_title_spec VNone) uniform "uniform" eq_refl)).
    right. split; discriminate.
  - apply (proj1 (proj2 (extract_title_spec
                           (VDict [("titleInfo", VList [uniform; main; other])])))
             [uniform] main [other] "The Store: A Novel").
    + reflexivity.
    + repeat constructor.
    + reflexivity.
    + repeat constructor. exists "translated". reflexivity.
Defined.

Lemma some_text_or_empty o : some_text o = true -> PyStr.truthy (or_empty o) = true.
Proof.
  destruct o as [x|]; simpl; [|discriminate]. intros H. rewrite H. exact H.
Qed.

Lemma compose_title_truthy non t sub :
  some_text t || some_text non || some_text sub = true ->
  PyStr.truthy (compose_title non t sub) = true.
Proof.
  intros H. unfold compose_title, present. cbn [flat_map].
  destruct (some_text sub) eqn:Es.
  - apply truthy_append. reflexivity.
  - rewrite orb_false_r in H.
    destruct (some_text non) eqn:En, (some_text t) eqn:Et; try discriminate H;
      cbn [List.app PyStr.join String.concat].
    + apply truthy_append, truthy_append, some_text_or_empty, Et.
    + apply some_text_or_empty, En.
    + apply some_text_or_empty, Et.
Qed.

Lemma variant_step_rule ti ttype :
  attr_lower ti "@type" = Ok ttype ->
  let t := get_text ti [KStr "title"] in
  let non := get_text ti [KStr "nonSort"] in
  let sub := get_text ti [KStr "subTitle"] in
  (In ttype ["alternative"; "translated"; "uniform"; "abbreviated"] ->
   some_text t || some_text non || some_text sub = true ->
   variant_step ti = Ok [compose_title non t sub]) /\
  (~ In ttype ["alternative"; "translated"; "uniform"; "abbreviated"] \/
   some_text t || some_text non || some_text sub = false ->
   variant_step ti = Ok []).
Proof.
  intros Ha t non sub. unfold variant_step. rewrite Ha. cbn [bind].
  fold t non sub. split.
  - intros Hin Hany.
    assert (Hm : mem ttype variant_types = true) by (apply mem_In; exact Hin).
    rewrite Hm, Hany, (compose_title_truthy non t sub Hany). reflexivity.
  - intros [Hin | Hany].
    + destruct (mem ttype variant_types) eqn:Hm; [|reflexivity].
      apply mem_In in Hm. contradiction.
    + rewrite Hany. destruct (mem ttype variant_types); reflexivity.
Qed.

(** C8, amended.  The two type filters overlap on exactly one value,
    "translated".  The Title extractor takes the entries whose lower-cased
    type is empty or "translated" and whose title has text; the
    Variant-Title extractor those whose type is "alternative",
    "translated", "uniform" or "abbreviated" and whose title, nonSort or
    subtitle has text.  An entry is taken by both exactly when its type is
    "translated" and its title has text, and then gives both the same
    string; an entry of any other type contributes to at most one. *)
Theorem title_filters_overlap (ti : value) (ttype : string) :
  attr_lower ti "@type" = Ok ttype ->
  let t := get_text ti [KStr "title"] in
  let non := get_text ti [KStr "nonSort"] in
  let sub := get_text ti [KStr "subTitle"] in
  let composed :=
    ((if some_text non then or_empty non ++ " " else EmptyString)
     ++ or_empty t
     ++ (if some_text sub then ": " ++ or_empty sub else EmptyString))%string in
  ((exists a b, title_step ti = Ok [a] /\ variant_step ti = Ok [b])
   <-> ttype = "translated" /\ some_text t = true) /\
  (ttype = "translated" -> some_text t = true ->
   title_step ti = Ok [composed] /\ variant_step ti = Ok [composed]) /\
  (ttype <> "translated" -> title_step ti = Ok [] \/ variant_step ti = Ok []) /\
  (title_step ti <> Ok []
   <-> (ttype = EmptyString \/ ttype = "translated") /\ some_text t = true) /\
  (variant_step ti <> Ok []
   <-> In ttype ["alternative"; "translated"; "uniform"; "abbreviated"] /\
       (some_text t = true \/ some_text non = true \/ some_text sub = true)).
Proof.
  intros Ha t non sub composed.
  destruct (title_step_rule ti ttype Ha) as [Htake Hskip].
  destruct (variant_step_rule ti ttype Ha) as [Vtake Vskip].
  fold t non sub in Htake, Hskip, Vtake, Vskip. fold composed in Htake.
  assert (Hany : forall b1 b2 b3 : bool,
             b1 || b2 || b3 = true <-> b1 = true \/ b2 = true \/ b3 = true).
  { intros [] [] []; simpl; intuition congruence. }
  assert (Hboth : ttype = "translated" -> some_text t = true ->
                  title_step ti = Ok [composed] /\ variant_step ti = Ok [composed]).
  { intros Hty Ht. split.
    - apply Htake; [exact Ht | right; exact Hty].
    - unfold composed. rewrite <- (compose_title_text non t sub Ht).
      apply Vtake; [rewrite Hty; simpl; auto | rewrite Ht; reflexivity]. }
  assert (Htitle : title_step ti <> Ok []
                   <-> (ttype = EmptyString \/ ttype = "translated") /\ some_text t = true).
  { split.
    - intros Hne. destruct (some_text t) eqn:Et.
      + split; [|reflexivity].
        destruct (String.eqb_spec ttype EmptyString) as [|H1]; [left; assumption|].
        destruct (String.eqb_spec ttype "translated") as [|H2]; [right; assumption|].
        exfalso. apply Hne, Hskip. right. split; assumption.
      + exfalso. apply Hne, Hskip. left. reflexivity.
    - intros [Hty Ht]. rewrite (Htake Ht Hty). discriminate. }
  assert (Hvariant : variant_step ti <> Ok []
                     <-> In ttype ["alternative"; "translated"; "uniform"; "abbreviated"] /\
                         (some_text t = true \/ some_text non = true \/ some_text sub = true)).
  { split.
    - intros Hne.
      destruct (some_text t || some_text non || some_text sub) eqn:Eany.
      + split; [|apply Hany; exact Eany].
        destruct (mem ttype ["alternative"; "translated"; "uniform"; "abbreviated"]) eqn:Hm.
        * apply mem_In. exact Hm.
        * exfalso. apply Hne, Vskip. left. intros Hin. apply mem_In in Hin. congruence.
      + exfalso. apply Hne, Vskip. right. reflexivity.
    - intros [Hin Hsome]. apply Hany in Hsome. rewrite (Vtake Hin Hsome). discriminate. }
  split; [|split; [exact Hboth|split; [|split; [exact Htitle | exact Hvariant]]]].
  - split.
    + intros (a & b & Ha' & Hb').
      assert (H1 : title_step ti <> Ok []) by (rewrite Ha'; discriminate).
      assert (H2 : variant_step ti <> Ok []) by (rewrite Hb'; discriminate).
      apply Htitle in H1. apply Hvariant in H2.
      destruct H1 as [[H1|H1] Ht]; [|split; assumption].
      exfalso. subst ttype. destruct H2 as [H2 _]. simpl in H2.
      destruct H2 as [H2|[H2|[H2|[H2|[]]]]]; discriminate H2.
    + intros [Hty Ht]. exists composed, composed. apply Hboth; assumption.
  - intros Hne.
    destruct (String.eqb_spec ttype EmptyString) as [H1|H1].
    + right. apply Vskip. left. subst ttype. simpl.
      intros [H|[H|[H|[H|[]]]]]; discriminate H.
    + left. apply Hskip. right. split; assumption.
Qed.

Lemma title_filters_overlap_witness :
  let ti := VDict [("@type", VStr "Translated"); ("nonSort", VStr "Der");
                   ("title", VStr "Laden"); ("subTitle", VStr "Roman")] in
  let other := VDict [("@type", VStr "Uniform"); ("title", VStr "X")] in
  (title_step ti = Ok ["Der Laden: Roman"] /\ variant_step ti = Ok ["Der Laden: Roman"]) /\
  (title_step other = Ok [] \/ variant_step other = Ok []).
Proof.
  intros ti other. split.
  - apply (proj1 (proj2 (title_filters_overlap ti "translated" eq_refl)));
      reflexivity.
  - apply (proj1 (proj2 (proj2 (title_filters_overlap other "uniform" eq_refl)))).
    discriminate.
Defined.

(** C8 as stated fails: an entry of type "translated" passes both filters
    and contributes to Title and to Variant-Title. *)
Lemma title_filters_not_complementary :
  let ti := VDict [("@type", VStr "translated"); ("title", VStr "Der Laden")] in
  let mods := VDict [("titleInfo", ti)] in
  title_step ti = Ok ["Der Laden"] /\
  variant_step ti = Ok ["Der Laden"] /\
  extract_title mods = Ok "Der Laden" /\
  extract_variant_titles mods = Ok "Der Laden" /\
  ~ (forall ttype,
       mem ttype [EmptyString; "translated"] && mem ttype variant_types = false).
Proof.
  repeat split. intros H. specialize (H "translated"). discriminate H.
Qed.

(** ** Text as UTF-8 *)

Lemma encode_app l1 l2 :
  Utf8.encode (l1 ++ l2) = (Utf8.encode l1 ++ Utf8.encode l2)%string.
Proof.
  induction l1 as [|c l1 IH]; simpl; [reflexivity|].
  rewrite IH, append_assoc. reflexivity.
Qed.

Lemma escape_char (b : ascii) :
  (N_of_ascii b <? 128)%N = false ->
  Utf8.char (56320 + N_of_ascii b) = String b EmptyString.
Proof.
  intros H. apply N.ltb_ge in H. pose proof (N_ascii_bounded b) as Hb.
  unfold Utf8.char.
  replace (56320 + N_of_ascii b <? 128)%N with false by (symmetry; apply N.ltb_ge; lia).
  replace (56320 + N_of_ascii b <? 2048)%N with false by (symmetry; apply N.ltb_ge; lia).
  replace (56448 <=? 56320 + N_of_ascii b)%N with true by (symmetry; apply N.leb_le; lia).
  replace (56320 + N_of_ascii b <=? 56575)%N with true by (symmetry; apply N.leb_le; lia).
  cbn [andb]. unfold Utf8.byte.
  replace (56320 + N_of_ascii b - 56320)%N with (N_of_ascii b) by lia.
  rewrite ascii_N_embedding. reflexivity.
Qed.

Lemma ascii_char (b : ascii) :
  (N_of_ascii b <? 128)%N = true -> Utf8.char (N_of_ascii b) = String b EmptyString.
Proof.
  intros H. unfold Utf8.char. rewrite H. unfold Utf8.byte.
  rewrite ascii_N_embedding. reflexivity.
Qed.

(** The encoding is not lossy: every byte string is the encoding of its
    code points. *)
Lemma encode_decode : forall s, Utf8.encode (Utf8.decode s) = s.
Proof.
  assert (H : forall n s, String.length s <= n -> Utf8.encode (Utf8.decode s) = s).
  { induction n as [|n IH]; intros s Hn.
    - destruct s; [reflexivity | simpl in Hn; lia].
    - destruct s as [|b1 r1]; [reflexivity|]. simpl in Hn.
      assert (IH1 : Utf8.encode (Utf8.decode r1) = r1) by (apply IH; lia).
      cbn [Utf8.decode].
      destruct (N_of_ascii b1 <? 128)%N eqn:E1.
      { cbn [Utf8.encode]. rewrite (ascii_char b1 E1), IH1. reflexivity. }
      assert (Hesc : Utf8.encode ((56320 + N_of_ascii b1)%N :: Utf8.decode r1)
                     = String b1 r1).
      { cbn [Utf8.encode]. rewrite (escape_char b1 E1), IH1. reflexivity. }
      destruct r1 as [|b2 r2]; [exact Hesc|].
      match goal with |- context [String.eqb ?x ?y] => destruct (String.eqb x y) eqn:E2 end.
      { apply String.eqb_eq in E2. cbn [Utf8.encode]. rewrite E2.
        rewrite (IH r2) by (simpl in Hn; lia). reflexivity. }
      destruct r2 as [|b3 r3]; [exact Hesc|].
      match goal with |- context [String.eqb ?x ?y] => destruct (String.eqb x y) eqn:E3 end.
      { apply String.eqb_eq in E3. cbn [Utf8.encode]. rewrite E3.
        rewrite (IH r3) by (simpl in Hn; lia). reflexivity. }
      destruct r3 as [|b4 r4]; [exact Hesc|].
      match goal with |- context [String.eqb ?x ?y] => destruct (String.eqb x y) eqn:E4 end.
      { apply String.eqb_eq in E4. cbn [Utf8.encode]. rewrite E4.
        rewrite (IH r4) by (simpl in Hn; lia). reflexivity. }
      exact Hesc. }
  intros s. apply (H (String.length s)). lia.
Qed.

(** ** The digit pattern *)

Lemma is_digit_spec c : PyStr.is_digit c = true <-> decimal_digit c.
Proof.
  unfold PyStr.is_digit, decimal_digit. rewrite existsb_exists. split.
  - intros [z [Hz H]]. apply andb_prop in H. destruct H as [H1 H2].
    apply N.leb_le in H1. apply N.ltb_lt in H2. exists z. split; [exact Hz | lia].
  - intros [z [Hz [H1 H2]]]. exists z. split; [exact Hz|].
    apply andb_true_intro. split; [apply N.leb_le | apply N.ltb_lt]; assumption.
Qed.

Lemma take_digits_split l :
  exists post,
    l = PyStr.take_digits l ++ post /\
    Forall decimal_digit (PyStr.take_digits l) /\ run_ends post.
Proof.
  induction l as [|c r IH].
  - exists []. repeat split; [constructor | intros c r H; discriminate H].
  - simpl. destruct (PyStr.is_digit c) eqn:E.
    + destruct IH as [post [Hr [Hd He]]]. exists post. repeat split.
      * simpl. congruence.
      * constructor; [apply is_digit_spec; exact E | exact Hd].
      * exact He.
    + exists (c :: r). repeat split; [constructor|].
      intros c' r' [= <- <-] Hc. apply is_digit_spec in Hc. congruence.
Qed.

Lemma take_digits_run ds post :
  Forall decimal_digit ds -> run_ends post ->
  PyStr.take_digits (ds ++ post) = ds.
Proof.
  intros Hd He. induction Hd as [|c ds Hc _ IH]; simpl.
  - destruct post as [|c r]; [reflexivity|]. simpl.
    destruct (PyStr.is_digit c) eqn:E; [|reflexivity].
    exfalso. apply (He c r eq_refl). apply is_digit_spec. exact E.
  - apply is_digit_spec in Hc. rewrite Hc, IH. reflexivity.
Qed.

Lemma match_here_spec l d : PyStr.match_here l = Some d <-> digit_run l d.
Proof.
  unfold digit_run. split.
  - unfold PyStr.match_here. intros H.
    destruct l as [|c1 [|c2 r]]; try discriminate.
    destruct ((c1 =? 57)%N && (c2 =? 57)%N) eqn:E; [|discriminate].
    apply andb_prop in E. destruct E as [E1 E2].
    apply N.eqb_eq in E1, E2. subst c1 c2.
    destruct (14 <=? length (PyStr.take_digits r)) eqn:E; [|discriminate].
    injection H as <-. destruct (take_digits_split r) as [post [Hr [Hd He]]].
    exists (PyStr.take_digits r), post. repeat split; auto.
    + congruence.
    + apply Nat.leb_le. exact E.
  - intros [ds [post [-> [-> [Hd [Hl He]]]]]].
    unfold PyStr.match_here. cbn [N.eqb Pos.eqb andb].
    rewrite take_digits_run by assumption.
    apply Nat.leb_le in Hl. rewrite Hl. reflexivity.
Qed.

(** [re.search] returns the match at the leftmost position that has one. *)
Lemma search_spec l d :
  PyStr.search l = Some d <->
  exists pre rest,
    l = pre ++ rest /\ digit_run rest d /\
    forall pre1 rest1,
      l = pre1 ++ rest1 -> length pre1 < length pre ->
      PyStr.match_here rest1 = None.
Proof.
  split.
  - induction l as [|c r IH]; [discriminate|].
    cbn [PyStr.search].
    destruct (PyStr.match_here (c :: r)) eqn:E.
    + intros H. injection H as ->. exists [], (c :: r).
      split; [reflexivity|]. split; [apply match_here_spec; exact E|].
      simpl. intros; lia.
    + intros H. destruct (IH H) as [pre [rest [Hr [Hm Hleft]]]].
      exists (c :: pre), rest. split; [simpl; congruence|].
      split; [exact Hm|].
      intros pre1 rest1 Hs Hlen. destruct pre1 as [|c1 p1].
      * simpl in Hs. subst rest1. exact E.
      * simpl in Hs. injection Hs as <- Hs. apply (Hleft p1); [exact Hs|].
        simpl in Hlen. lia.
  - intros [pre [rest [-> [Hm Hleft]]]]. apply match_here_spec in Hm.
    induction pre as [|c pre IH].
    + simpl. destruct rest; cbn [PyStr.search]; rewrite Hm; reflexivity.
    + change ((c :: pre) ++ rest) with (c :: (pre ++ rest)).
      cbn [PyStr.search].
      rewrite (Hleft [] (c :: (pre ++ rest))); [|reflexivity|simpl; lia].
      apply IH. intros pre1 rest1 Hs Hlen.
      apply (Hleft (c :: pre1) rest1); [simpl; congruence | simpl; lia].
Qed.

Lemma search_nonempty l d :
  PyStr.search l = Some d -> PyStr.truthy (Utf8.encode d) = true.
Proof.
  intros H. apply search_spec in H.
  destruct H as [pre [rest [_ [[ds [post [_ [-> _]]]] _]]]]. reflexivity.
Qed.

Lemma digits_in_spec o d :
  digits_in o = Some d <->
  exists s run,
    o = Some s /\ PyStr.search (Utf8.decode s) = Some run /\ d = Utf8.encode run.
Proof.
  unfold digits_in, find_digits. split.
  - destruct o as [s|]; simpl; [|discriminate].
    destruct (PyStr.truthy s) eqn:Es; [|discriminate].
    destruct (PyStr.search (Utf8.decode s)) as [run|] eqn:E; [|discriminate].
    rewrite (search_nonempty _ _ E). intros H. injection H as <-. eauto.
  - intros [s [run [-> [H ->]]]]. simpl.
    destruct s as [|c r]; [simpl in H; discriminate|].
    cbn [PyStr.truthy]. rewrite H, (search_nonempty _ _ H). reflexivity.
Qed.

(** ** HOLLIS number *)

Lemma rid_step_spec rid txt :
  rid_step rid = Ok (Some txt) <->
  exists src,
    attr_lower rid "@source" = Ok src /\
    txt = or_empty (get_text rid []) /\ txt <> EmptyString /\
    (PyStr.contains "alma" src = true \/ PyStr.startswith "99" txt = true).
Proof.
  unfold rid_step. split.
  - intros H. bind_inv H. exists a. split; [exact Ha|].
    destruct (PyStr.truthy (or_empty (get_text rid []))) eqn:Et; [|discriminate].
    cbn [andb] in H.
    destruct (PyStr.contains "alma" a || PyStr.startswith "99" (or_empty (get_text rid [])))
      eqn:E; [|discriminate].
    injection H as <-. split; [reflexivity|].
    split; [apply truthy_nonempty; exact Et|].
    apply orb_prop. exact E.
  - intros [src [Ha [-> [Ht Hs]]]]. rewrite Ha. cbn [bind].
    apply truthy_nonempty in Ht. rewrite Ht. cbn [andb].
    destruct Hs as [Hs|Hs]; rewrite Hs; [|rewrite orb_true_r]; reflexivity.
Qed.

Lemma hollis_step_a mods pre rid post txt :
  record_identifiers mods = pre ++ rid :: post ->
  Forall (fun x => rid_step x = Ok None) pre ->
  rid_step rid = Ok (Some txt) ->
  extract_hollis_number mods = Ok txt.
Proof.
  intros Hl Hpre Hrid. unfold extract_hollis_number.
  rewrite for_first_nested. fold (record_identifiers mods).
  rewrite Hl, (for_first_found _ _ _ _ _ Hpre Hrid). reflexivity.
Qed.

Lemma digits_loop_found (src : value -> option string) l pre x post d :
  l = pre ++ x :: post ->
  Forall (fun y => digits_in (src y) = None) pre ->
  digits_in (src x) = Some d ->
  for_first (fun y => Ok (digits_in (src y))) l = Ok (Some d).
Proof.
  intros -> Hpre Hx. apply for_first_found.
  - eapply Forall_impl; [|exact Hpre]. simpl. intros y ->. reflexivity.
  - rewrite Hx. reflexivity.
Qed.

Lemma digits_loop_none (src : value -> option string) l :
  Forall (fun y => digits_in (src y) = None) l ->
  for_first (fun y => Ok (digits_in (src y))) l = Ok None.
Proof.
  intros H. apply for_first_none.
  eapply Forall_impl; [|exact H]. simpl. intros y ->. reflexivity.
Qed.

Lemma hollis_after_a mods :
  Forall (fun x => rid_step x = Ok None) (record_identifiers mods) ->
  extract_hollis_number mods =
  (d <- for_first rel_step (as_list (nget mods "relatedItem")) ;;
   match d with
   | Some r => Ok r
   | None =>
       d <- for_first ext_step (as_list (nget mods "extension")) ;;
       match d with
       | Some r => Ok r
       | None => Ok EmptyString
       end
   end).
Proof.
  intros Ha. unfold extract_hollis_number.
  rewrite for_first_nested. fold (record_identifiers mods).
  rewrite (for_first_none _ _ Ha). reflexivity.
Qed.

Lemma find_digits_within s d :
  find_digits s = Some d -> exists before after, s = (before ++ d ++ after)%string.
Proof.
  unfold find_digits. destruct (PyStr.search (Utf8.decode s)) as [run|] eqn:E; [|discriminate].
  intros [= <-]. apply search_spec in E.
  destruct E as [pre [rest [Hs [[ds [post [-> [-> _]]]] _]]]].
  exists (Utf8.encode pre), (Utf8.encode post).
  rewrite <- (encode_decode s), Hs.
  change (57%N :: 57%N :: ds ++ post) with ((57%N :: 57%N :: ds) ++ post).
  rewrite !encode_app. reflexivity.
Qed.

Lemma ascii_decimal_digit c :
  (c < 128)%N -> (decimal_digit c <-> (48 <= c <= 57)%N).
Proof.
  intros Hc. unfold decimal_digit. split.
  - intros [z [Hin Hr]]. simpl in Hin.
    repeat (destruct Hin as [<-|Hin]; [lia|]). contradiction.
  - intros H. exists 48%N. split; [left; reflexivity | lia].
Qed.

(** C1.  The HOLLIS number is (a) the text of the first record identifier,
    over the record-info groups in document order, that has text and whose
    source mentions "alma" or whose text begins with "99"; (b) when there is
    none, the match of the digit pattern in the first related-item URL that
    has one; (c) when there is none, the match in the first extension
    original-document reference that has one; and the empty string when all
    three fail.  The match is a part of the text: the leftmost "99" followed
    by at least fourteen decimal digits, with the whole digit run.  Among
    the ASCII characters the decimal digits are 0 to 9; the digits of other
    scripts count as well. *)
Theorem extract_hollis_number_chain (mods : value) :
  (forall pre rid post txt,
     record_identifiers mods = pre ++ rid :: post ->
     Forall (fun x => rid_step x = Ok None) pre ->
     rid_step rid = Ok (Some txt) ->
     extract_hollis_number mods = Ok txt) /\
  (Forall (fun x => rid_step x = Ok None) (record_identifiers mods) ->
   (forall pre rel post d,
      as_list (nget mods "relatedItem") = pre ++ rel :: post ->
      Forall (fun x => digits_in (related_url x) = None) pre ->
      digits_in (related_url rel) = Some d ->
      extract_hollis_number mods = Ok d) /\
   (Forall (fun x => digits_in (related_url x) = None) (as_list (nget mods "relatedItem")) ->
    (forall pre ext post d,
       as_list (nget mods "extension") = pre ++ ext :: post ->
       Forall (fun x => digits_in (original_document x) = None) pre ->
       digits_in (original_document ext) = Some d ->
       extract_hollis_number mods = Ok d) /\
    (Forall (fun x => digits_in (original_document x) = None)
            (as_list (nget mods "extension")) ->
     extract_hollis_number mods = Ok EmptyString))) /\
  (forall rid txt,
     rid_step rid = Ok (Some txt) <->
     exists src,
       attr_lower rid "@source" = Ok src /\
       txt = or_empty (get_text rid []) /\ txt <> EmptyString /\
       (PyStr.contains "alma" src = true \/ PyStr.startswith "99" txt = true)) /\
  (forall o d,
     digits_in o = Some d <->
     exists s pre rest run,
       o = Some s /\ Utf8.decode s = pre ++ rest /\ digit_run rest run /\
       d = Utf8.encode run /\
       forall pre1 rest1 run1,
         Utf8.decode s = pre1 ++ rest1 -> length pre1 < length pre ->
         ~ digit_run rest1 run1) /\
  (forall s d,
     find_digits s = Some d -> exists before after, s = (before ++ d ++ after)%string) /\
  (forall s, Utf8.encode (Utf8.decode s) = s) /\
  (forall c, (c < 128)%N -> (decimal_digit c <-> (48 <= c <= 57)%N)) /\
  find_digits "https://x/99-not-a-number-at-all" = None /\
  find_digits "catalog/9900123456789012/" = Some "9900123456789012" /\
  find_digits "catalog/990012345678901/" = None /\
  (let arabic_indic := Utf8.encode (57 :: 57 :: repeat 1632 14)%N in
   find_digits ("catalog/" ++ arabic_indic ++ "/") = Some arabic_indic) /\
  extract_hollis_number
    (VDict [("relatedItem",
             VDict [("location",
                     VDict [("url",
                             VStr "https://id.lib.harvard.edu/alma/catalog/990012345670203941")])])])
  = Ok "990012345670203941".
Proof.
  split; [exact (hollis_step_a mods)|].
  split.
  { intros Ha. rewrite (hollis_after_a mods Ha). split.
    - intros pre rel post d Hl Hpre Hrel.
      change rel_step with (fun y : value => Ok (A := option string) (digits_in (related_url y))).
      rewrite (digits_loop_found related_url _ _ _ _ _ Hl Hpre Hrel). reflexivity.
    - intros Hb.
      change rel_step with (fun y : value => Ok (A := option string) (digits_in (related_url y))).
      rewrite (digits_loop_none related_url _ Hb). cbn [bind]. split.
      + intros pre ext post d Hl Hpre Hext.
        change ext_step
          with (fun y : value => Ok (A := option string) (digits_in (original_document y))).
        rewrite (digits_loop_found original_document _ _ _ _ _ Hl Hpre Hext). reflexivity.
      + intros Hc.
        change ext_step
          with (fun y : value => Ok (A := option string) (digits_in (original_document y))).
        rewrite (digits_loop_none original_document _ Hc). reflexivity. }
  split; [exact rid_step_spec|].
  split.
  { intros o d. rewrite digits_in_spec. split.
    - intros [s [run [-> [H ->]]]]. apply search_spec in H.
      destruct H as [pre [rest [Hs [Hm Hleft]]]].
      exists s, pre, rest, run. repeat split; auto.
      intros pre1 rest1 run1 Hs1 Hlen Hrun. apply match_here_spec in Hrun.
      rewrite (Hleft pre1 rest1 Hs1 Hlen) in Hrun. discriminate.
    - intros [s [pre [rest [run [-> [Hs [Hm [-> Hleft]]]]]]]]. exists s, run.
      split; [reflexivity|]. split; [|reflexivity]. apply search_spec. exists pre, rest.
      repeat split; auto. intros pre1 rest1 Hs1 Hlen.
      destruct (PyStr.match_here rest1) as [d1|] eqn:E; [|reflexivity].
      exfalso. apply (Hleft pre1 rest1 d1 Hs1 Hlen). apply match_here_spec. exact E. }
  split; [exact find_digits_within|].
  split; [exact encode_decode|].
  split; [exact ascii_decimal_digit|].
  repeat split; vm_compute; reflexivity.
Qed.

Lemma extract_hollis_number_chain_witness :
  let ident := VDict [("@source", VStr "MH:ALMA"); ("#text", VStr "1234")] in
  let other := VDict [("@source", VStr "OCoLC"); ("#text", VStr "ocm0001")] in
  let link := VDict [("location", VDict [("url", VStr "x/990012345670203941")])] in
  extract_hollis_number
    (VDict [("recordInfo", VDict [("recordIdentifier", VList [other; ident])]);
            ("relatedItem", link)]) = Ok "1234" /\
  extract_hollis_number
    (VDict [("recordInfo", VDict [("recordIdentifier", other)]);
            ("relatedItem", link)]) = Ok "990012345670203941".
Proof.
  intros ident other link. split.
  - apply (proj1 (extract_hollis_number_chain _) [other] ident [] "1234").
    + reflexivity.
    + repeat constructor.
    + reflexivity.
  - apply (proj1 (proj1 (proj2 (extract_hollis_number_chain
                                  (VDict [("recordInfo", VDict [("recordIdentifier", other)]);
                                          ("relatedItem", link)])))
                    (Forall_cons other (eq_refl (Ok None)) (Forall_nil _)))
             [] link [] "990012345670203941").
    + reflexivity.
    + constructor.
    + reflexivity.
Defined.

(** ** Names *)

Lemma for_collect_each {A B : Type} (body : A -> result (list B)) l out x :
  for_collect body l = Ok out -> In x l -> exists ys, body x = Ok ys.
Proof.
  revert out. induction l as [|y l IH]; simpl; intros out H Hx; [contradiction|].
  bind_inv H. bind_inv H. destruct Hx as [->|Hx]; eauto.
Qed.

Lemma role_term_matches_eq rt :
  role_term_matches rt =
  (tp <- attr_lower rt "@type" ;;
   let t := PyStr.lower (PyStr.strip (or_empty (get_text rt []))) in
   Ok ((String.eqb tp "code" && mem t want_codes) || mem t want_texts)).
Proof.
  unfold role_term_matches, attr_lower.
  destruct rt as [| | | |d]; try reflexivity.
  destruct (str_method PyStr.lower (py_or (get d "@type") (VStr EmptyString)));
    reflexivity.
Qed.

Lemma is_creator_spec n b :
  is_creator n = Ok b ->
  (b = true <->
   exists role rt,
     In role (as_list (nget n "role")) /\
     In rt (as_list (nget role "roleTerm")) /\
     role_term_matches rt = Ok true).
Proof.
  unfold is_creator. intros H. bind_inv H. injection H as <-. split.
  - intros Hb. apply existsb_exists in Hb. destruct Hb as [f [Hf ->]].
    destruct (for_collect_from _ _ _ _ Ha Hf) as [role [ys [Hrole [Hys Hin]]]].
    destruct (for_collect_from _ _ _ _ Hys Hin) as [rt [zs [Hrt [Hzs Hz]]]].
    exists role, rt. split; [exact Hrole|]. split; [exact Hrt|].
    bind_inv Hzs. injection Hzs as <-. destruct Hz as [<-|[]]. exact Ha0.
  - intros [role [rt [Hrole [Hrt Hm]]]].
    apply existsb_exists. exists true. split; [|reflexivity].
    destruct (for_collect_each _ _ _ _ Ha Hrole) as [ys Hys].
    apply (for_collect_In _ _ _ role ys true Ha Hrole Hys).
    apply (for_collect_In _ _ _ rt [true] true Hys Hrt); [|left; reflexivity].
    rewrite Hm. reflexivity.
Qed.

Lemma name_parts_loop_spec nps parts : forall other_parts date_parts,
  Forall2 part_reads nps parts ->
  name_parts_loop nps other_parts date_parts =
  Ok (other_parts ++ non_date_texts parts, date_parts ++ date_texts parts).
Proof.
  intros o d H. revert o d.
  induction H as [|np [tp txt] nps parts [Ht Hp] _ IH]; intros o d.
  - simpl. rewrite !app_nil_r. reflexivity.
  - simpl in Ht, Hp. cbn [name_parts_loop]. rewrite Ht. cbn [bind].
    unfold non_date_texts, date_texts. cbn [filter fst snd].
    destruct (PyStr.truthy txt) eqn:E; cbn [negb andb].
    + destruct Hp as [->|Hp]; [discriminate|]. rewrite Hp. cbn [bind].
      destruct (String.eqb tp "date"); cbn [negb map snd]; rewrite IH.
      * rewrite <- app_assoc. reflexivity.
      * rewrite <- app_assoc. reflexivity.
    + apply IH.
Qed.

Lemma display_name_spec n parts :
  Forall2 part_reads (as_list (nget n "namePart")) parts ->
  _display_name_with_dates n = Ok (finish_name n (non_date_texts parts) (date_texts parts)).
Proof.
  intros H. unfold _display_name_with_dates.
  rewrite (name_parts_loop_spec _ _ [] [] H). reflexivity.
Qed.

Lemma personal_type_spec ntype :
  personal_type ntype = true <-> ntype = EmptyString \/ ntype = "personal".
Proof.
  unfold personal_type.
  destruct (String.eqb ntype "personal") eqn:E.
  - apply String.eqb_eq in E. rewrite andb_false_r. split; auto.
  - apply String.eqb_neq in E. rewrite andb_true_r, negb_true_iff.
    destruct ntype as [|c r]; simpl; split; auto.
    + discriminate.
    + intros [H|H]; [discriminate | contradiction].
Qed.

Lemma creator_step_rule n ntype b disp :
  attr_lower n "@type" = Ok ntype ->
  ntype = EmptyString \/ ntype = "personal" ->
  is_creator n = Ok b ->
  _display_name_with_dates n = Ok disp ->
  disp <> EmptyString ->
  (b = true -> creator_step n = Ok [disp]) /\
  (b = false ->
   forall usage,
     attr_lower n "@usage" = Ok usage ->
     creator_step n = Ok (if String.eqb usage "primary" then [disp] else [])).
Proof.
  intros Ht Hp Hc Hd Hne. apply personal_type_spec in Hp. apply truthy_nonempty in Hne.
  unfold creator_step. rewrite Ht. cbn [bind]. rewrite Hp. cbn [negb].
  rewrite Hc. cbn [bind]. split.
  - intros ->. cbn [bind negb]. rewrite Hd. cbn [bind]. rewrite Hne. reflexivity.
  - intros -> usage Hu. rewrite Hu. cbn [bind].
    destruct (String.eqb usage "primary"); cbn [negb]; [|reflexivity].
    rewrite Hd. cbn [bind]. rewrite Hne. reflexivity.
Qed.

Lemma personal_step_rule n ntype disp :
  attr_lower n "@type" = Ok ntype ->
  ntype = EmptyString \/ ntype = "personal" ->
  _display_name_with_dates n = Ok disp ->
  disp <> EmptyString ->
  personal_step n = Ok [disp].
Proof.
  intros Ht Hp Hd Hne. apply personal_type_spec in Hp. apply truthy_nonempty in Hne.
  unfold personal_step. rewrite Ht. cbn [bind]. rewrite Hp. cbn [negb].
  rewrite Hd. cbn [bind]. rewrite Hne. reflexivity.
Qed.

Lemma dedup_from_In x l : forall seen,
  In x (PyStr.dedup_from seen l) <-> In x l /\ ~ In x seen.
Proof.
  induction l as [|y l IH]; intros seen; simpl.
  - tauto.
  - destruct (existsb (String.eqb y) seen) eqn:E.
    + apply mem_In in E. rewrite IH. split.
      * tauto.
      * intros [[->|H] Hn]; tauto.
    + assert (Hy : ~ In y seen).
      { intros H. apply mem_In in H. unfold mem in H. congruence. }
      simpl. rewrite IH. simpl.
      destruct (string_dec y x) as [->|Hne]; tauto.
Qed.

Lemma dedup_In x l : In x (PyStr.dedup l) <-> In x l.
Proof.
  unfold PyStr.dedup. rewrite dedup_from_In. simpl. tauto.
Qed.

Lemma in_positions (x : string) names :
  In x names ->
  x = nth 0 names EmptyString \/ x = nth 1 names EmptyString \/
  x = nth 2 names EmptyString \/ In x (skipn 3 names).
Proof.
  destruct names as [|a [|b [|c rest]]]; simpl; intuition auto.
Qed.

(** What the row holds is what the extractors returned. *)
Lemma row_from_item_fields it r :
  row_from_item it = Ok r ->
  let mods := mods_of it in
  extract_personal_names_split mods = Ok (name1 r, name2 r, name3 r, names_other r) /\
  extract_hollis_number mods = Ok (hollis_number r) /\
  extract_title mods = Ok (title r) /\
  extract_variant_titles mods = Ok (variant_title r) /\
  extract_creators mods = Ok (creator r) /\
  extract_corporate_names mods = Ok (corporate_name r) /\
  extract_issue_number mods = Ok (issue_number r) /\
  extract_permalink it = Ok (permalink r) /\
  extract_notes mods = Ok (_notes r) /\
  _tocs r = extract_tocs mods.
Proof.
  unfold row_from_item. intros H. bind_inv H.
  destruct a as [[[n1 n2] n3] other].
  destruct (extract_repository_and_callnum (mods_of it)) as [repo callnum].
  do 8 bind_inv H. injection H as <-. simpl. repeat split; assumption.
Qed.

Lemma personal_names_columns mods names n1 n2 n3 other :
  personal_names mods = Ok names ->
  extract_personal_names_split mods = Ok (n1, n2, n3, other) ->
  n1 = nth 0 names EmptyString /\ n2 = nth 1 names EmptyString /\
  n3 = nth 2 names EmptyString /\
  other = (if 3 <? length names then PyStr.join "; " (skipn 3 names) else EmptyString).
Proof.
  unfold extract_personal_names_split. intros -> H. cbn [bind] in H.
  injection H as <- <- <- <-. repeat split.
Qed.

(** A personal or untyped name entry with a display string is in the
    positional name columns of the row, whatever its roles. *)
Lemma personal_name_in_row it r n ntype disp :
  row_from_item it = Ok r ->
  In n (as_list (nget (mods_of it) "name")) ->
  attr_lower n "@type" = Ok ntype ->
  ntype = EmptyString \/ ntype = "personal" ->
  _display_name_with_dates n = Ok disp ->
  disp <> EmptyString ->
  exists names,
    personal_names (mods_of it) = Ok names /\ in_name_columns disp names r.
Proof.
  intros Hr Hn Ht Hp Hd Hne.
  destruct (row_from_item_fields it r Hr) as [Hs _].
  pose proof Hs as Hs'. unfold extract_personal_names_split in Hs'.
  bind_inv Hs'. clear Hs'. exists a. split; [exact Ha|].
  destruct (personal_names_columns _ _ _ _ _ _ Ha Hs) as [H1 [H2 [H3 H4]]].
  unfold in_name_columns. rewrite H1, H2, H3, H4. repeat split.
  apply in_positions. unfold personal_names in Ha. bind_inv Ha.
  injection Ha as <-. apply dedup_In.
  apply (for_collect_In _ _ _ n [disp] disp Ha0 Hn); [|left; reflexivity].
  apply (personal_step_rule n ntype disp); assumption.
Qed.

(** The Creator column joins what the iterations kept, duplicates removed. *)
Lemma creators_spec mods out :
  creators mods = Ok out ->
  extract_creators mods = Ok (PyStr.join "; " out) /\
  (forall x,
     In x out <->
     exists n ys,
       In n (as_list (nget mods "name")) /\ creator_step n = Ok ys /\ In x ys).
Proof.
  intros H. split; [unfold extract_creators; rewrite H; reflexivity|].
  unfold creators in H. bind_inv H. injection H as <-.
  intros x. rewrite dedup_In. split.
  - apply for_collect_from. exact Ha.
  - intros [n [ys [Hn [Hys Hx]]]]. exact (for_collect_In _ _ _ n ys x Ha Hn Hys Hx).
Qed.

Lemma role_term_matches_rule rt tp :
  attr_lower rt "@type" = Ok tp ->
  let t := PyStr.lower (PyStr.strip (or_empty (get_text rt []))) in
  role_term_matches rt = Ok true <->
  (tp = "code" /\ In t ["aut"; "cmp"; "cre"; "prf"; "voc"]) \/
  In t ["author"; "composer"; "creator"; "performer"; "vocalist"; "singer"; "voice"].
Proof.
  intros Ha t. rewrite role_term_matches_eq, Ha. cbn [bind]. fold t.
  change (mem t want_codes) with (mem t ["aut"; "cmp"; "cre"; "prf"; "voc"]).
  change (mem t want_texts)
    with (mem t ["author"; "composer"; "creator"; "performer"; "vocalist";
                 "singer"; "voice"]).
  split.
  - intros H. injection H as H. apply orb_true_iff in H. destruct H as [H|H].
    + apply andb_true_iff in H. destruct H as [H1 H2]. left. split.
      * apply String.eqb_eq. exact H1.
      * apply mem_In. exact H2.
    + right. apply mem_In. exact H.
  - intros [[H1 H2]|H]; f_equal; apply orb_true_iff.
    + left. apply andb_true_iff. split; [apply String.eqb_eq; exact H1 | apply mem_In; exact H2].
    + right. apply mem_In. exact H.
Qed.

Lemma creator_step_cases n ntype :
  attr_lower n "@type" = Ok ntype ->
  (ntype <> EmptyString -> ntype <> "personal" -> creator_step n = Ok []) /\
  (ntype = EmptyString \/ ntype = "personal" ->
   (forall disp,
      is_creator n = Ok true ->
      _display_name_with_dates n = Ok disp ->
      creator_step n = Ok (if PyStr.truthy disp then [disp] else [])) /\
   (forall usage disp,
      is_creator n = Ok false ->
      attr_lower n "@usage" = Ok usage ->
      _display_name_with_dates n = Ok disp ->
      creator_step n
      = Ok (if String.eqb usage "primary" && PyStr.truthy disp then [disp] else [])) /\
   (forall usage,
      is_creator n = Ok false ->
      attr_lower n "@usage" = Ok usage ->
      usage <> "primary" ->
      creator_step n = Ok [])).
Proof.
  intros Ht. unfold creator_step. rewrite Ht. cbn [bind]. split.
  - intros H1 H2. destruct (personal_type ntype) eqn:E; [|reflexivity].
    apply personal_type_spec in E. destruct E; contradiction.
  - intros Hp. apply personal_type_spec in Hp. rewrite Hp. cbn [negb].
    split; [|split].
    + intros disp -> Hd. cbn [bind negb]. rewrite Hd. cbn [bind].
      destruct (PyStr.truthy disp); reflexivity.
    + intros usage disp -> Hu Hd. cbn [bind]. rewrite Hu. cbn [bind].
      destruct (String.eqb usage "primary"); cbn [negb andb]; [|reflexivity].
      rewrite Hd. cbn [bind]. destruct (PyStr.truthy disp); reflexivity.
    + intros usage -> Hu Hne. cbn [bind]. rewrite Hu. cbn [bind].
      apply String.eqb_neq in Hne. rewrite Hne. reflexivity.
Qed.




(** ** Corporate names *)

Lemma single_text_node n k :
  some_text (get_text n [KStr k]) = true ->
  exists x, as_list (nget n k) = [x] /\ is_empty_str x = false.
Proof.
  unfold get_text. destruct n as [| | | |d]; try discriminate.
  cbn [walk is_none nget].
  assert (Hv : forall v, some_text (text_of v) = true ->
                         exists x, as_list v = [x] /\ is_empty_str x = false).
  { intros [| s | z | l | m]; simpl; try discriminate; intros H.
    - exists (VStr s). split; [reflexivity|]. destruct s; [discriminate | reflexivity].
    - exists (VInt z). split; reflexivity.
    - exists (VDict m). split; reflexivity. }
  destruct (dict_get d k) as [v|]; [exact (Hv v)|].
  destruct (suffix_lookup d k) as [v|]; [exact (Hv v) | discriminate].
Qed.

(** The index in the corporate test is never out of range. *)
Lemma corporate_test_total n ntype : exists b, corporate_test n ntype = Ok b.
Proof.
  unfold corporate_test.
  destruct (String.eqb ntype "corporate"); [eauto|].
  destruct (negb (String.eqb ntype EmptyString)); [eauto|].
  destruct (some_text (get_text n [KStr "namePart"])) eqn:E; cbn [negb]; [|eauto].
  destruct (single_text_node n "namePart" E) as [x [-> _]]. eauto.
Qed.

Lemma corporate_step_untyped n disp :
  attr_lower n "@type" = Ok EmptyString ->
  some_text (get_text n [KStr "namePart"]) = true ->
  _display_name_with_dates n = Ok disp ->
  disp <> EmptyString ->
  corporate_step n = Ok [disp].
Proof.
  intros Ht Hs Hd Hne. apply truthy_nonempty in Hne.
  unfold corporate_step, corporate_test. rewrite Ht. cbn [bind].
  change (String.eqb EmptyString "corporate") with false.
  change (String.eqb EmptyString EmptyString) with true. cbn [negb].
  rewrite Hs. cbn [negb].
  destruct (single_text_node n "namePart" Hs) as [x [-> Hx]].
  rewrite Hx. cbn [negb bind]. rewrite Hd. cbn [bind]. rewrite Hne. reflexivity.
Qed.

(** C10, amended.  A name entry without type attribute whose namePart is a
    single node (not a sequence of name-parts) with non-empty text, and
    whose display string is non-empty, is read as corporate and as personal:
    the display string is one of the names joined into corporate_name and
    is in the positional name columns of the same row. *)
Theorem untyped_name_in_both (it : item) (r : row) (n : value) (disp : string) :
  row_from_item it = Ok r ->
  In n (as_list (nget (mods_of it) "name")) ->
  attr_lower n "@type" = Ok EmptyString ->
  some_text (get_text n [KStr "namePart"]) = true ->
  _display_name_with_dates n = Ok disp ->
  disp <> EmptyString ->
  (exists corps,
     corporate_names (mods_of it) = Ok corps /\
     corporate_name r = PyStr.join "; " corps /\ In disp corps) /\
  (exists names,
     personal_names (mods_of it) = Ok names /\ in_name_columns disp names r).
Proof.
  intros Hr Hn Ht Hs Hd Hne. split.
  - destruct (row_from_item_fields it r Hr) as [_ [_ [_ [_ [_ [Hc _]]]]]].
    unfold extract_corporate_names in Hc. bind_inv Hc. injection Hc as Hc.
    exists a. split; [exact Ha|]. split; [symmetry; exact Hc|].
    unfold corporate_names in Ha. bind_inv Ha. injection Ha as <-.
    apply dedup_In.
    apply (for_collect_In _ _ _ n [disp] disp Ha0 Hn); [|left; reflexivity].
    apply corporate_step_untyped; assumption.
  - apply (personal_name_in_row it r n EmptyString disp); auto.
Qed.

Lemma untyped_name_in_both_witness :
  let n := VDict [("namePart", VStr "Harvard University. Library")] in
  let it := wrap (VDict [("name", n)]) in
  exists r,
    row_from_item it = Ok r /\
    corporate_name r = "Harvard University. Library" /\
    name1 r = "Harvard University. Library" /\
    (exists corps,
       corporate_names (mods_of it) = Ok corps /\
       corporate_name r = PyStr.join "; " corps /\
       In "Harvard University. Library" corps) /\
    (exists names,
       personal_names (mods_of it) = Ok names /\
       in_name_columns "Harvard University. Library" names r).
Proof.
  intros n it. eexists. split; [vm_compute; reflexivity|].
  split; [reflexivity|]. split; [reflexivity|].
  apply (untyped_name_in_both it _ n "Harvard University. Library").
  - reflexivity.
  - left. reflexivity.
  - reflexivity.
  - reflexivity.
  - reflexivity.
  - discriminate.
Defined.

(** C10 as stated fails: when the name-parts form a sequence, the entry is
    not read as corporate although its first name-part has text. *)
Lemma untyped_name_with_parts_not_corporate :
  let n := VDict [("namePart", VList [VStr "Doe"; VStr "Jane"])] in
  let it := wrap (VDict [("name", n)]) in
  get_default [("namePart", VList [VStr "Doe"; VStr "Jane"])] "@type" VNone = VNone /\
  option_map name_part_text (hd_error (as_list (nget n "namePart"))) = Some (Ok "Doe") /\
  _display_name_with_dates n = Ok "Doe Jane" /\
  corporate_names (mods_of it) = Ok [] /\
  exists r,
    row_from_item it = Ok r /\ corporate_name r = EmptyString /\ name1 r = "Doe Jane".
Proof.
  repeat split. eexists. repeat split.
Qed.

(** ** De-duplication *)

Lemma key_eqb_eq a b : key_eqb a b = true <-> a = b.
Proof.
  destruct a as [s|i p], b as [t|j q]; simpl.
  - rewrite String.eqb_eq. split; congruence.
  - split; discriminate.
  - split; discriminate.
  - rewrite andb_true_iff, !String.eqb_eq. split; [intros [-> ->] | intros [= -> ->]]; auto.
Qed.

Lemma key_in_In k seen : key_in k seen = true <-> In k seen.
Proof.
  unfold key_in. rewrite existsb_exists. split.
  - intros [x [Hx E]]. apply key_eqb_eq in E. subst. exact Hx.
  - intros H. exists k. split; [exact H | apply key_eqb_eq; reflexivity].
Qed.

Lemma coherent_init : coherent init.
Proof.
  constructor; simpl; try reflexivity. constructor.
Qed.

Lemma coherent_seen st k :
  coherent st -> (key_in k (seen_keys st) = true <-> In k (map dedup_key (rows st))).
Proof.
  intros H. rewrite key_in_In, (seen_rows st H), <- in_rev. tauto.
Qed.

Lemma accept_coherent st r :
  coherent st -> key_in (dedup_key r) (seen_keys st) = false -> coherent (accept st r).
Proof.
  intros H Hk. constructor; simpl.
  - rewrite map_app, rev_app_distr. simpl. f_equal. apply (seen_rows st H).
  - rewrite map_app. apply NoDup_app.
    + apply (distinct_keys st H).
    + repeat constructor. simpl. tauto.
    + intros a Ha [<-|[]]. apply (coherent_seen st _ H) in Ha. congruence.
  - rewrite length_app, (written_rows st H). reflexivity.
  - rewrite map_app, list_max_app, (tocs_max st H). simpl. lia.
  - rewrite map_app, list_max_app, (notes_max st H). simpl. lia.
Qed.

Section HarvestFacts.

Variable max_records : Z.

Lemma process_items_coherent items : forall st st',
  coherent st -> process_items max_records st items = Ok st' -> coherent st'.
Proof.
  induction items as [|it rest IH]; simpl; intros st st' Hc H.
  - injection H as <-. exact Hc.
  - bind_inv H. destruct (key_in (dedup_key a) (seen_keys st)) eqn:Ek.
    + eapply IH; eauto.
    + pose proof (accept_coherent st a Hc Ek) as Hc'.
      destruct (capped max_records (accept st a)).
      * injection H as <-. exact Hc'.
      * eapply IH; eauto.
Qed.

Variable page : Z -> result (list item).

Lemma process_loop_coherent starts : forall st items st',
  coherent st -> process_loop max_records page st items starts = Ok st' -> coherent st'.
Proof.
  induction starts as [|start later IH]; intros st items st' Hc H;
    cbn [process_loop] in H; bind_inv H;
    pose proof (process_items_coherent _ _ _ Hc Ha) as Hc';
    destruct (capped max_records a); try (injection H as <-; exact Hc').
  bind_inv H. destruct a0 as [|it its].
  - injection H as <-. exact Hc'.
  - eapply IH; eauto.
Qed.

Lemma harvest_coherent page_size num_found st :
  harvest max_records page page_size num_found = Ok st -> coherent st.
Proof.
  unfold harvest. intros H. bind_inv H.
  eapply process_loop_coherent; [apply coherent_init | exact H].
Qed.

(** A record whose key is that of an accepted row leaves the state as it is. *)
Lemma process_items_duplicate st it rest r :
  coherent st ->
  row_from_item it = Ok r ->
  In (dedup_key r) (map dedup_key (rows st)) ->
  process_items max_records st (it :: rest) = process_items max_records st rest.
Proof.
  intros Hc Hr Hin. simpl. rewrite Hr. cbn [bind].
  apply (coherent_seen st _ Hc) in Hin. rewrite Hin. reflexivity.
Qed.

Lemma dedup_key_hollis r :
  (hollis_number r <> EmptyString -> dedup_key r = KeyStr (hollis_number r)) /\
  (hollis_number r = EmptyString -> dedup_key r = KeyPair (identifier r) (permalink r)).
Proof.
  unfold dedup_key. split.
  - intros H. apply truthy_nonempty in H. rewrite H. reflexivity.
  - intros ->. reflexivity.
Qed.

Lemma same_hollis_one_row a b ra rb :
  row_from_item a = Ok ra ->
  row_from_item b = Ok rb ->
  hollis_number ra <> EmptyString ->
  hollis_number ra = hollis_number rb ->
  exists st,
    process_items max_records init [a; b] = Ok st /\ rows st = [ra] /\ written st = 1.
Proof.
  intros Ha Hb Hne Heq.
  assert (Hk : dedup_key rb = dedup_key ra).
  { rewrite (proj1 (dedup_key_hollis ra) Hne).
    rewrite Heq in Hne. rewrite (proj1 (dedup_key_hollis rb) Hne). congruence. }
  cbn [process_items]. rewrite Ha. cbn [bind].
  change (key_in (dedup_key ra) (seen_keys init)) with false. cbv iota.
  destruct (capped max_records (accept init ra)).
  - exists (accept init ra). repeat split.
  - rewrite Hb. cbn [bind].
    assert (Hin : key_in (dedup_key rb) (seen_keys (accept init ra)) = true).
    { apply key_in_In. simpl. left. symmetry. exact Hk. }
    rewrite Hin. exists (accept init ra). repeat split.
Qed.

End HarvestFacts.

(** C4.  The key of a row is its HOLLIS number when that is non-empty and
    otherwise the pair of identifier and permalink.  A record whose key is
    the key of an accepted row is dropped: the rows, the written count and
    the maxima stay as they are.  So the accepted rows of a harvest have
    distinct keys, as many as were counted, and two records with the same
    non-empty HOLLIS number give one row. *)
Theorem dedup_rule (max_records : Z) :
  (forall r,
     (hollis_number r <> EmptyString -> dedup_key r = KeyStr (hollis_number r)) /\
     (hollis_number r = EmptyString ->
      dedup_key r = KeyPair (identifier r) (permalink r))) /\
  (forall st it rest r,
     coherent st ->
     row_from_item it = Ok r ->
     In (dedup_key r) (map dedup_key (rows st)) ->
     process_items max_records st (it :: rest) = process_items max_records st rest /\
     process_items max_records st [it] = Ok st) /\
  (coherent init /\
   forall st items st',
     coherent st -> process_items max_records st items = Ok st' -> coherent st') /\
  (forall page page_size num_found st,
     harvest max_records page page_size num_found = Ok st ->
     NoDup (map dedup_key (rows st)) /\ written st = length (rows st)) /\
  (forall a b ra rb,
     row_from_item a = Ok ra ->
     row_from_item b = Ok rb ->
     hollis_number ra <> EmptyString ->
     hollis_number ra = hollis_number rb ->
     exists st,
       process_items max_records init [a; b] = Ok st /\ rows st = [ra] /\ written st = 1).
Proof.
  split; [exact dedup_key_hollis|].
  split.
  { intros st it rest r Hc Hr Hin. split.
    - apply (process_items_duplicate max_records st it rest r Hc Hr Hin).
    - rewrite (process_items_duplicate max_records st it [] r Hc Hr Hin). reflexivity. }
  split; [split; [exact coherent_init | intros st items st'; apply process_items_coherent]|].
  split; [|exact (same_hollis_one_row max_records)].
  intros page page_size num_found st H.
  pose proof (harvest_coherent max_records page page_size num_found st H) as Hc.
  split; [apply (distinct_keys st Hc) | apply (written_rows st Hc)].
Qed.

Lemma dedup_rule_witness :
  let record h :=
    wrap (VDict [("recordInfo",
                  VDict [("recordIdentifier",
                          VDict [("@source", VStr "MH:ALMA"); ("#text", VStr h)])])]) in
  let a := record "990000000000000001" in
  let b := record "990000000000000002" in
  let c := record "990000000000000003" in
  let page start := if (start =? 0)%Z then Ok [a; b] else Ok [b; c] in
  exists st,
    harvest 2000 page 2 4 = Ok st /\
    map hollis_number (rows st)
    = ["990000000000000001"; "990000000000000002"; "990000000000000003"] /\
    NoDup (map dedup_key (rows st)) /\ written st = length (rows st).
Proof.
  intros record a b c page. eexists. split; [vm_compute; reflexivity|].
  split; [reflexivity|].
  apply (proj1 (proj2 (proj2 (proj2 (dedup_rule 2000)))) page 2%Z 4%Z).
  vm_compute. reflexivity.
Defined.

(** ** Output columns *)

Lemma to_uint_nonnil n : Nat.to_uint n <> Decimal.Nil.
Proof.
  intros H. pose proof (DecimalNat.Unsigned.of_to n) as Hn.
  rewrite H in Hn. simpl in Hn. subst n. discriminate H.
Qed.

Lemma of_nat_inj a b : PyStr.of_nat a = PyStr.of_nat b -> a = b.
Proof.
  unfold PyStr.of_nat. intros H.
  apply DecimalNat.Unsigned.to_uint_inj.
  pose proof (NilZero.usu _ (to_uint_nonnil a)) as Ha.
  pose proof (NilZero.usu _ (to_uint_nonnil b)) as Hb.
  rewrite H in Ha. congruence.
Qed.

Lemma append_inj_l (p a b : string) : (p ++ a = p ++ b)%string -> a = b.
Proof.
  induction p as [|c p IH]; simpl; intros H; [exact H|].
  injection H as H. auto.
Qed.

Lemma startswith_append p x : PyStr.startswith p (p ++ x) = true.
Proof.
  induction p as [|c p IH]; simpl; [reflexivity|].
  rewrite Ascii.eqb_refl. exact IH.
Qed.

Section FoldSet.

Context {I V : Type}.
Variables (name : I -> string) (val : I -> V).

Lemma fold_set_other l : forall d k,
  (forall i, In i l -> name i <> k) ->
  dict_get (fold_left (fun out i => dict_set out (name i) (val i)) l d) k = dict_get d k.
Proof.
  induction l as [|j l IH]; intros d k Hk; simpl; [reflexivity|].
  rewrite IH by (intros i Hi; apply Hk; right; exact Hi).
  rewrite dict_get_set.
  destruct (String.eqb (name j) k) eqn:E; [|reflexivity].
  apply String.eqb_eq in E. exfalso. apply (Hk j); [left; reflexivity | exact E].
Qed.

Lemma fold_set_in l : forall d i,
  NoDup (map name l) -> In i l ->
  dict_get (fold_left (fun out i => dict_set out (name i) (val i)) l d) (name i)
  = Some (val i).
Proof.
  induction l as [|j l IH]; intros d i Hn Hi; [contradiction|].
  simpl in Hn. inversion Hn as [|? ? Hj Hn']; subst. simpl.
  destruct (in_dec string_dec (name i) (map name l)) as [Hin|Hout].
  - destruct Hi as [->|Hi]; [contradiction|]. apply IH; assumption.
  - rewrite fold_set_other.
    + destruct Hi as [->|Hi].
      * rewrite dict_get_set, String.eqb_refl. reflexivity.
      * exfalso. apply Hout. apply in_map. exact Hi.
    + intros i' Hi' E. apply Hout. rewrite <- E. apply in_map. exact Hi'.
Qed.

End FoldSet.

Lemma map_NoDup {A B : Type} (f : A -> B) l :
  (forall a b, f a = f b -> a = b) -> NoDup l -> NoDup (map f l).
Proof.
  intros Hf. induction 1 as [|x l Hx _ IH]; simpl; constructor; [|exact IH].
  intros Hin. apply in_map_iff in Hin. destruct Hin as [y [E Hy]].
  apply Hf in E. subst y. contradiction.
Qed.

Lemma numbered_NoDup prefix n :
  NoDup (map (fun i => (prefix ++ PyStr.of_nat i)%string) (seq 1 n)).
Proof.
  apply map_NoDup; [|apply seq_NoDup].
  intros a b H. apply of_nat_inj. apply (append_inj_l prefix). exact H.
Qed.

Lemma nth_seq_padded (l : list string) : forall n,
  length l <= n ->
  map (fun i => nth i l EmptyString) (seq 0 n) = padded l n.
Proof.
  unfold padded. induction l as [|x l IH]; intros n Hn.
  - simpl. rewrite Nat.sub_0_r. clear Hn. generalize 0 as s.
    induction n as [|n IHn]; intros s; simpl; [reflexivity|].
    rewrite IHn. destruct s; reflexivity.
  - destruct n as [|n]; [simpl in Hn; lia|].
    cbn [seq map nth length Nat.sub app]. f_equal.
    rewrite <- seq_shift, map_map. apply IH. simpl in Hn. lia.
Qed.

Lemma slots_padded (l : list string) n :
  length l <= n ->
  map (fun i => if i - 1 <? length l then nth (i - 1) l EmptyString else EmptyString)
      (seq 1 n) = padded l n.
Proof.
  intros Hn. rewrite <- (nth_seq_padded l n Hn), <- seq_shift, map_map.
  apply map_ext. intros i. cbn [Nat.sub]. rewrite Nat.sub_0_r.
  destruct (i <? length l) eqn:E; [reflexivity|].
  apply Nat.ltb_ge in E. rewrite nth_overflow; [reflexivity | exact E].
Qed.

Lemma expand_other prefix l n out k :
  PyStr.startswith prefix k = false ->
  dict_get (expand prefix l n out) k = dict_get out k.
Proof.
  intros Hk. unfold expand.
  apply (fold_set_other (fun i => (prefix ++ PyStr.of_nat i)%string)).
  intros i _ E. rewrite <- E, startswith_append in Hk. discriminate.
Qed.

Lemma expand_cells prefix l n out :
  length l <= n ->
  cells (numbered prefix n) (expand prefix l n out) = padded l n.
Proof.
  intros Hn. unfold cells, numbered. rewrite map_map, <- (slots_padded l n Hn).
  apply map_ext_in. intros i Hi. unfold get_default, expand.
  rewrite (fold_set_in (fun i => (prefix ++ PyStr.of_nat i)%string)
             (fun i => if i - 1 <? length l then nth (i - 1) l EmptyString
                       else EmptyString));
    [reflexivity | apply numbered_NoDup | exact Hi].
Qed.

Lemma cells_ext names out out' :
  (forall k, In k names -> dict_get out k = dict_get out' k) ->
  cells names out = cells names out'.
Proof.
  intros H. unfold cells, get_default. apply map_ext_in. intros k Hk.
  rewrite (H k Hk). reflexivity.
Qed.

Lemma numbered_prefix prefix n k :
  In k (numbered prefix n) -> PyStr.startswith prefix k = true.
Proof.
  unfold numbered. intros H. apply in_map_iff in H. destruct H as [i [<- _]].
  apply startswith_append.
Qed.

Lemma BASE_COLUMNS_NoDup : NoDup BASE_COLUMNS.
Proof.
  unfold BASE_COLUMNS.
  repeat (constructor; [simpl; intros H; repeat (destruct H as [H|H]; [discriminate H|]);
                        exact H|]).
  constructor.
Qed.

Lemma base_cells r : forall st,
  cells BASE_COLUMNS (out_row st r) = map snd (row_items r).
Proof.
  intros st.
  transitivity (map (fun k => get_default (row_items r) k EmptyString) BASE_COLUMNS);
    [|reflexivity].
  unfold cells, get_default at 1. apply map_ext_in. intros k Hk.
  assert (Hp : PyStr.startswith "toc" k = false /\ PyStr.startswith "note" k = false).
  { unfold BASE_COLUMNS in Hk. simpl in Hk.
    repeat (destruct Hk as [<-|Hk]; [split; reflexivity|]). contradiction. }
  unfold out_row. rewrite !expand_other by tauto.
  rewrite (fold_set_in (fun k : string => k)
             (fun k => get_default (row_items r) k EmptyString));
    [reflexivity | rewrite map_id; exact BASE_COLUMNS_NoDup | exact Hk].
Qed.

Lemma row_cells st r :
  length (_tocs r) <= max_tocs st ->
  length (_notes r) <= max_notes st ->
  cells (fieldnames st) (out_row st r)
  = map snd (row_items r) ++ padded (_tocs r) (max_tocs st)
    ++ padded (_notes r) (max_notes st).
Proof.
  intros Ht Hn. unfold fieldnames, cells. rewrite !map_app.
  fold (cells BASE_COLUMNS (out_row st r)). rewrite base_cells. f_equal. f_equal.
  - fold (cells (numbered "toc" (max_tocs st)) (out_row st r)).
    rewrite <- (expand_cells "toc" (_tocs r) (max_tocs st)
                  (fold_left (fun out k => dict_set out k
                                (get_default (row_items r) k EmptyString))
                             BASE_COLUMNS []) Ht).
    apply cells_ext. intros k Hk. unfold out_row. apply expand_other.
    apply numbered_prefix in Hk.
    destruct k as [|c k]; [discriminate|]. cbn [PyStr.startswith] in Hk |- *.
    destruct (Ascii.eqb "t" c) eqn:E; [|discriminate].
    apply Ascii.eqb_eq in E. subst c. reflexivity.
  - apply (expand_cells "note" (_notes r) (max_notes st) _ Hn).
Qed.

Lemma padded_length l n : length l <= n -> length (padded l n) = n.
Proof.
  intros H. unfold padded. rewrite length_app, repeat_length. lia.
Qed.

Lemma numbered_length prefix n : length (numbered prefix n) = n.
Proof.
  unfold numbered. rewrite length_map, length_seq. reflexivity.
Qed.

Lemma coherent_bounds st r :
  coherent st -> In r (rows st) ->
  length (_tocs r) <= max_tocs st /\ length (_notes r) <= max_notes st.
Proof.
  intros Hc Hr. rewrite (tocs_max st Hc), (notes_max st Hc). split.
  - assert (H := proj1 (list_max_le (map (fun r => length (_tocs r)) (rows st)) _)
                       (Nat.le_refl _)).
    rewrite Forall_forall in H. apply H. apply in_map_iff. eauto.
  - assert (H := proj1 (list_max_le (map (fun r => length (_notes r)) (rows st)) _)
                       (Nat.le_refl _)).
    rewrite Forall_forall in H. apply H. apply in_map_iff. eauto.
Qed.

(** C5.  The lines written for a harvest are the header and one line per
    accepted row, in order.  The header is the base columns, then toc1..
    and note1.., as many as the longest table-of-contents and notes lists
    among the accepted rows; a row's line is its base values in the order of
    the base columns, then its lists padded with empty strings to those
    lengths, so every line has one cell per column.  With a longest notes
    list of three the note columns are note1, note2, note3. *)
Theorem output_schema (max_records : Z) (page : Z -> result (list item))
    (page_size num_found : Z) (st : state) :
  harvest max_records page page_size num_found = Ok st ->
  let longest_toc := list_max (map (fun r => length (_tocs r)) (rows st)) in
  let longest_notes := list_max (map (fun r => length (_notes r)) (rows st)) in
  main max_records page page_size num_found
  = Ok ((BASE_COLUMNS ++ numbered "toc" longest_toc ++ numbered "note" longest_notes)
        :: map (fun r =>
                  [identifier r; hollis_number r; title r; variant_title r; creator r;
                   name1 r; name2 r; name3 r; names_other r; corporate_name r;
                   publisher r; place r; date r; language r; type_of_resource r;
                   physical_description r; keyword r; repository r; call_number r;
                   issue_number r; permalink r]
                  ++ padded (_tocs r) longest_toc ++ padded (_notes r) longest_notes)
               (rows st)) /\
  main max_records page page_size num_found = Ok (table st) /\
  fieldnames st
  = BASE_COLUMNS ++ numbered "toc" longest_toc ++ numbered "note" longest_notes /\
  (forall r,
     In r (rows st) ->
     cells (fieldnames st) (out_row st r)
     = map snd (row_items r) ++ padded (_tocs r) longest_toc
       ++ padded (_notes r) longest_notes) /\
  (forall line,
     In line (table st) -> length line = 21 + longest_toc + longest_notes) /\
  length (table st) = 1 + length (rows st) /\
  (forall r,
     In r (rows st) ->
     length (_tocs r) <= longest_toc /\ length (_notes r) <= longest_notes) /\
  (forall prefix n, length (numbered prefix n) = n) /\
  numbered "toc" 11
  = ["toc1"; "toc2"; "toc3"; "toc4"; "toc5"; "toc6"; "toc7"; "toc8"; "toc9";
     "toc10"; "toc11"] /\
  (longest_notes = 3 -> numbered "note" longest_notes = ["note1"; "note2"; "note3"]).
Proof.
  intros Hrun longest_toc longest_notes.
  pose proof (harvest_coherent _ _ _ _ _ Hrun) as H.
  assert (Ht : max_tocs st = longest_toc) by apply (tocs_max st H).
  assert (Hn : max_notes st = longest_notes) by apply (notes_max st H).
  assert (Hcells : forall r, In r (rows st) ->
            cells (fieldnames st) (out_row st r)
            = map snd (row_items r) ++ padded (_tocs r) longest_toc
              ++ padded (_notes r) longest_notes).
  { intros r Hr. destruct (coherent_bounds st r H Hr) as [Hb1 Hb2].
    rewrite <- Ht, <- Hn. apply row_cells; assumption. }
  assert (Hnames : fieldnames st
                   = BASE_COLUMNS ++ numbered "toc" longest_toc
                     ++ numbered "note" longest_notes).
  { unfold fieldnames. rewrite Ht, Hn. reflexivity. }
  split.
  { unfold main. rewrite Hrun. cbn [bind]. unfold table. rewrite <- Hnames.
    f_equal. f_equal. apply map_ext_in. intros r Hr. exact (Hcells r Hr). }
  split; [unfold main; rewrite Hrun; reflexivity|].
  split; [exact Hnames|].
  split; [exact Hcells|].
  split.
  { intros line [<-|Hl].
    + unfold fieldnames. rewrite !length_app, !numbered_length, Ht, Hn.
      simpl. lia.
    + apply in_map_iff in Hl. destruct Hl as [r [<- Hr]].
      rewrite (Hcells r Hr).
      destruct (coherent_bounds st r H Hr) as [Hb1 Hb2].
      rewrite Ht in Hb1. rewrite Hn in Hb2.
      rewrite !length_app, !padded_length by assumption. simpl. lia. }
  split; [unfold table; cbn [length]; rewrite length_map; reflexivity|].
  split.
  { intros r Hr. rewrite <- Ht, <- Hn. exact (coherent_bounds st r H Hr). }
  split; [exact numbered_length|].
  split; [reflexivity|].
  intros ->. reflexivity.
Qed.

Lemma output_schema_witness :
  let record h notes :=
    wrap (VDict [("recordInfo",
                  VDict [("recordIdentifier",
                          VDict [("@source", VStr "MH:ALMA"); ("#text", VStr h)])]);
                 ("note", VList (map VStr notes))]) in
  let a := record "990000000000000001" ["first"; "second"; "third"] in
  let b := record "990000000000000002" ["only"] in
  let page (start : Z) := Ok (A := list item) [a; b] in
  exists st,
    harvest 2000 page 50 2 = Ok st /\
    skipn 21 (fieldnames st) = ["note1"; "note2"; "note3"] /\
    main 2000 page 50 2
    = Ok [BASE_COLUMNS ++ ["note1"; "note2"; "note3"];
          ["990000000000000001"; "990000000000000001"] ++ repeat EmptyString 19
          ++ ["first"; "second"; "third"];
          ["990000000000000002"; "990000000000000002"] ++ repeat EmptyString 19
          ++ ["only"; EmptyString; EmptyString]] /\
    (forall line, In line (table st) -> length line = 24).
Proof.
  intros record a b page. eexists. split; [vm_compute; reflexivity|].
  split; [reflexivity|]. split.
  - rewrite (proj1 (output_schema 2000 page 50 2 _ eq_refl)). reflexivity.
  - apply (proj1 (proj2 (proj2 (proj2 (proj2 (output_schema 2000 page 50 2 _ eq_refl)))))).
Defined.

(** ** Row building *)

(** C9 fails on the code.  A name-part that is a mapping without text (an
    empty element that carries only its type attribute) makes
    [_display_name_with_dates] call [strip] on [None]; the error leaves
    [row_from_item].  The role-term loop reads the same shape through
    [get_text(rt) or ""] and does not raise. *)
Theorem row_from_item_raises :
  let part := VDict [("@type", VStr "date")] in
  let mods := VDict [("name", VDict [("namePart", part)])] in
  strip_ns mods = mods /\
  get_text part [] = None /\
  role_term_matches part = Ok false /\
  _display_name_with_dates (VDict [("namePart", part)]) = Raise AttributeError /\
  row_from_item (wrap mods) = Raise AttributeError.
Proof.
  repeat split.
Qed.

(** * Further properties of the code *)

(** ** Path lookup *)

Lemma get_text_none rest : get_text VNone rest = None.
Proof.
  destruct rest; reflexivity.
Qed.

(** X1.  A string step of [get_text] is [nget]: looking up a path that
    starts with a key is looking up the rest of the path in what [nget]
    returns for the key.  A string key never reaches into a sequence, and an
    integer step outside the sequence (negative indices included) gives
    [None]. *)
Theorem get_text_steps (node : value) (rest : list path_key) :
  (forall k, get_text node (KStr k :: rest) = get_text (nget node k) rest) /\
  (forall l k, node = VList l -> get_text node (KStr k :: rest) = None) /\
  (forall l i,
     node = VList l -> (i < 0 \/ Z.of_nat (length l) <= i)%Z ->
     get_text node (KInt i :: rest) = None) /\
  (forall l i,
     node = VList l -> (0 <= i < Z.of_nat (length l))%Z ->
     get_text node (KInt i :: rest) = get_text (nth (Z.to_nat i) l VNone) rest).
Proof.
  split; [|split; [|split]].
  - intros k. destruct node as [| s | z | l | d];
      try (cbn [nget]; rewrite !get_text_none; reflexivity).
    unfold get_text. cbn [walk is_none nget].
    destruct (dict_get d k) as [v|]; [reflexivity|].
    destruct (suffix_lookup d k) as [v|]; [reflexivity|].
    symmetry. apply get_text_none.
  - intros l k ->. reflexivity.
  - intros l i -> Hi. unfold get_text. cbn [walk is_none].
    destruct ((0 <=? i)%Z && (i <? Z.of_nat (length l))%Z) eqn:E; [|reflexivity].
    apply andb_prop in E. destruct E as [E1 E2].
    apply Z.leb_le in E1. apply Z.ltb_lt in E2. lia.
  - intros l i -> [H1 H2]. unfold get_text. cbn [walk is_none].
    apply Z.leb_le in H1. apply Z.ltb_lt in H2. rewrite H1, H2. reflexivity.
Qed.

Lemma get_text_steps_witness :
  let node := VList [VStr "a"; VDict [("url", VStr "b")]] in
  get_text node [KInt 2] = None /\
  get_text node [KInt (-1)] = None /\
  get_text node [KInt 1; KStr "url"] = Some "b" /\
  get_text node [KStr "url"] = None.
Proof.
  intros node. split; [|split; [|split]].
  - apply (proj1 (proj2 (proj2 (get_text_steps node []))) _ 2%Z eq_refl).
    right. simpl. lia.
  - apply (proj1 (proj2 (proj2 (get_text_steps node []))) _ (-1)%Z eq_refl).
    left. lia.
  - rewrite (proj2 (proj2 (proj2 (get_text_steps node [KStr "url"]))) _ 1%Z eq_refl);
      [reflexivity | simpl; lia].
  - apply (proj1 (proj2 (get_text_steps node [])) _ "url" eq_refl).
Defined.

(** ** Joined columns *)

Lemma dedup_from_NoDup l : forall seen,
  NoDup (PyStr.dedup_from seen l).
Proof.
  induction l as [|x l IH]; intros seen; simpl; [constructor|].
  destruct (existsb (String.eqb x) seen) eqn:E; [apply IH|].
  constructor; [|apply IH].
  rewrite dedup_from_In. simpl. tauto.
Qed.

Lemma strip_truthy v :
  PyStr.truthy v && PyStr.truthy (PyStr.strip v) = PyStr.truthy (PyStr.strip v).
Proof.
  destruct v; reflexivity.
Qed.

Lemma is_space_spec c : PyStr.is_space c = true <-> space_point c.
Proof.
  unfold PyStr.is_space, space_point. rewrite existsb_exists. split.
  - intros [x [Hx E]]. apply N.eqb_eq in E. subst x.
    unfold PyStr.white_space in Hx. simpl in Hx.
    repeat (destruct Hx as [Hx|Hx]; [lia|]). contradiction.
  - intros H. exists c. split; [|apply N.eqb_refl].
    assert (E : (c = 9 \/ c = 10 \/ c = 11 \/ c = 12 \/ c = 13 \/ c = 28 \/ c = 29 \/
                 c = 30 \/ c = 31 \/ c = 32 \/ c = 133 \/ c = 160 \/ c = 5760 \/
                 c = 8192 \/ c = 8193 \/ c = 8194 \/ c = 8195 \/ c = 8196 \/
                 c = 8197 \/ c = 8198 \/ c = 8199 \/ c = 8200 \/ c = 8201 \/
                 c = 8202 \/ c = 8232 \/ c = 8233 \/ c = 8239 \/ c = 8287 \/
                 c = 12288)%N) by lia.
    unfold PyStr.white_space. simpl.
    repeat (destruct E as [E|E]; [subst c; auto 40|]). subst c. auto 40.
Qed.

Lemma lstrip_spec l :
  exists lead,
    l = lead ++ PyStr.lstrip l /\ Forall space_point lead /\
    (forall c r, PyStr.lstrip l = c :: r -> ~ space_point c).
Proof.
  induction l as [|c l [lead [E [Hl Hh]]]]; simpl.
  - exists []. repeat split; [constructor | discriminate].
  - destruct (PyStr.is_space c) eqn:Ec.
    + exists (c :: lead). split; [simpl; f_equal; exact E|].
      split; [constructor; [apply is_space_spec; exact Ec | exact Hl] | exact Hh].
    + exists []. split; [reflexivity|]. split; [constructor|].
      intros c' r H. injection H as <- _. intros Hs.
      apply is_space_spec in Hs. congruence.
Qed.

Lemma rstrip_spec m :
  exists trail,
    m = PyStr.rstrip m ++ trail /\ Forall space_point trail /\
    (forall c r, PyStr.rstrip m = r ++ [c] -> ~ space_point c).
Proof.
  destruct (lstrip_spec (rev m)) as [lead [E [Hl Hh]]].
  exists (rev lead). unfold PyStr.rstrip. split; [|split].
  - rewrite <- rev_app_distr, <- E, rev_involutive. reflexivity.
  - apply Forall_rev. exact Hl.
  - intros c r H. apply (Hh c (rev r)).
    rewrite <- (rev_involutive (PyStr.lstrip (rev m))), H, rev_app_distr. reflexivity.
Qed.

(** [strip] removes the white space at the two ends, and nothing else. *)
Lemma strip_trimmed s :
  exists middle,
    PyStr.strip s = Utf8.encode middle /\ trimmed (Utf8.decode s) middle.
Proof.
  exists (PyStr.rstrip (PyStr.lstrip (Utf8.decode s))). split; [reflexivity|].
  destruct (lstrip_spec (Utf8.decode s)) as [lead [E1 [Hlead Hhead]]].
  destruct (rstrip_spec (PyStr.lstrip (Utf8.decode s))) as [trail [E2 [Htrail Hlast]]].
  exists lead, trail. split; [rewrite <- E2; exact E1|].
  split; [exact Hlead|]. split; [exact Htrail|]. split; [|exact Hlast].
  intros c r H. apply (Hhead c (r ++ trail)). rewrite E2 at 1. rewrite H. reflexivity.
Qed.

(** X2.  [join_clean] joins with "; " a list without duplicates that holds
    exactly the trimmed values that are not blank: an empty or
    whitespace-only value contributes nothing, and a value that differs from
    an earlier one only by surrounding whitespace is not repeated.  Trimming
    removes the white space of [str.isspace()] at the two ends, the
    no-break and ideographic spaces included, and nothing else. *)
Theorem join_clean_spec (values : list string) :
  exists items,
    join_clean values = PyStr.join "; " items /\
    NoDup items /\
    (forall x,
       In x items <->
       x <> EmptyString /\ exists v, In v values /\ PyStr.strip v = x) /\
    (forall v,
       exists middle,
         PyStr.strip v = Utf8.encode middle /\ trimmed (Utf8.decode v) middle) /\
    (forall s, Utf8.encode (Utf8.decode s) = s) /\
    (Forall (fun v => PyStr.strip v = EmptyString) values ->
     join_clean values = EmptyString) /\
    (let nbsp := Utf8.char 160 in
     let ideographic := Utf8.char 12288 in
     join_clean [(nbsp ++ "Paris" ++ nbsp)%string; "Paris"; ideographic;
                 " New  York "; (Utf8.char 8203 ++ "Lyon")%string; "Paris "]
     = ("Paris; New  York; " ++ Utf8.char 8203 ++ "Lyon")%string).
Proof.
  exists (PyStr.dedup
            (map PyStr.strip
               (filter (fun v => PyStr.truthy v && PyStr.truthy (PyStr.strip v)) values))).
  split; [reflexivity|]. split; [apply dedup_from_NoDup|]. split; [|split; [|split; [|split]]].
  - intros x. rewrite dedup_In, in_map_iff. split.
    + intros [v [<- Hv]]. apply filter_In in Hv. destruct Hv as [Hv Ht].
      rewrite strip_truthy in Ht. split; [apply truthy_nonempty; exact Ht | eauto].
    + intros [Hne [v [Hv <-]]]. exists v. split; [reflexivity|].
      apply filter_In. split; [exact Hv|]. rewrite strip_truthy.
      apply truthy_nonempty. exact Hne.
  - exact strip_trimmed.
  - exact encode_decode.
  - intros H. unfold join_clean.
    assert (E : filter (fun v => PyStr.truthy v && PyStr.truthy (PyStr.strip v)) values = []).
    { induction H as [|v l Hv _ IH]; simpl; [reflexivity|].
      rewrite strip_truthy, Hv. exact IH. }
    rewrite E. reflexivity.
  - vm_compute. reflexivity.
Qed.

(** ** Publisher *)

Lemma first_text_found (f : value -> option string) pre x post s :
  Forall (fun y => some_text (f y) = false) pre ->
  f x = Some s -> s <> EmptyString ->
  first_text f (pre ++ x :: post) = Some s.
Proof.
  intros Hpre Hx Hs. apply truthy_nonempty in Hs.
  induction Hpre as [|y pre Hy _ IH]; simpl.
  - rewrite Hx. simpl. rewrite Hs. reflexivity.
  - rewrite Hy. exact IH.
Qed.

Lemma first_text_empty (f : value -> option string) l :
  or_empty (first_text f l) = EmptyString <->
  Forall (fun y => some_text (f y) = false) l.
Proof.
  induction l as [|y l IH]; simpl.
  - split; [constructor | reflexivity].
  - destruct (some_text (f y)) eqn:E.
    + split.
      * intros H. exfalso. unfold some_text in E. unfold or_empty in H.
        destruct (f y) as [s|]; [|discriminate].
        rewrite E in H. subst s. discriminate.
      * intros H. inversion H; congruence.
    + rewrite IH. split.
      * intros H. constructor; assumption.
      * intros H. inversion H; assumption.
Qed.

(** X3.  The publisher is the publisher text of the first origin-info group
    that has a non-empty one, and it is the empty string exactly when no
    group has one. *)
Theorem extract_publisher_first (mods : value) :
  (forall pre oi post s,
     as_list (nget mods "originInfo") = pre ++ oi :: post ->
     Forall (fun x => some_text (get_text x [KStr "publisher"]) = false) pre ->
     get_text oi [KStr "publisher"] = Some s -> s <> EmptyString ->
     extract_publisher mods = s) /\
  (extract_publisher mods = EmptyString <->
   Forall (fun x => some_text (get_text x [KStr "publisher"]) = false)
          (as_list (nget mods "originInfo"))).
Proof.
  split.
  - intros pre oi post s Hl Hpre Hoi Hs. unfold extract_publisher.
    rewrite Hl, (first_text_found _ pre oi post s Hpre Hoi Hs).
    apply truthy_nonempty in Hs. simpl. rewrite Hs. reflexivity.
  - apply first_text_empty.
Qed.

Lemma extract_publisher_first_witness :
  extract_publisher
    (VDict [("originInfo",
             VList [VDict [("place", VStr "Boston")];
                    VDict [("publisher", VStr "Little, Brown")];
                    VDict [("publisher", VStr "Hachette")]])])
  = "Little, Brown".
Proof.
  apply (proj1 (extract_publisher_first _)
           [VDict [("place", VStr "Boston")]]
           (VDict [("publisher", VStr "Little, Brown")])
           [VDict [("publisher", VStr "Hachette")]] "Little, Brown").
  - reflexivity.
  - repeat constructor.
  - reflexivity.
  - discriminate.
Defined.

(** ** Permalink *)

Lemma hollis_link_step_spec rel u :
  hollis_link_step rel = Ok (Some u) <->
  exists oth,
    attr_lower rel "@otherType" = Ok oth /\ PyStr.contains "hollis" oth = true /\
    related_url rel = Some u /\ u <> EmptyString.
Proof.
  unfold hollis_link_step, related_url. split.
  - intros H. bind_inv H. exists a. split; [exact Ha|].
    destruct (PyStr.contains "hollis" a); [|discriminate]. split; [reflexivity|].
    destruct (some_text (get_text rel [KStr "location"; KStr "url"])) eqn:E;
      [|discriminate].
    injection H as H. split; [exact H|].
    rewrite H in E. apply truthy_nonempty. exact E.
  - intros [oth [Ha [Hc [Hu Hne]]]]. rewrite Ha. cbn [bind]. rewrite Hc, Hu.
    apply truthy_nonempty in Hne. simpl. rewrite Hne. reflexivity.
Qed.

(** X4.  The permalink is the URL of the first related item whose otherType
    attribute contains "hollis" (in any case) and that has a URL; a related
    item marked so but without URL is passed over.  When there is none, it
    is the text of the first URL with text under the location groups, and
    the empty string exactly when there is no such URL. *)
Theorem extract_permalink_chain (it : item) :
  let mods := mods_of it in
  let urls := flat_map (fun loc => as_list (nget loc "url")) (as_list (nget mods "location")) in
  (forall rel u,
     hollis_link_step rel = Ok (Some u) <->
     exists oth,
       attr_lower rel "@otherType" = Ok oth /\ PyStr.contains "hollis" oth = true /\
       related_url rel = Some u /\ u <> EmptyString) /\
  (forall pre rel post u,
     as_list (nget mods "relatedItem") = pre ++ rel :: post ->
     Forall (fun x => hollis_link_step x = Ok None) pre ->
     hollis_link_step rel = Ok (Some u) ->
     extract_permalink it = Ok u) /\
  (Forall (fun x => hollis_link_step x = Ok None) (as_list (nget mods "relatedItem")) ->
   (forall pre node post u,
      urls = pre ++ node :: post ->
      Forall (fun x => some_text (get_text x []) = false) pre ->
      get_text node [] = Some u -> u <> EmptyString ->
      extract_permalink it = Ok u) /\
   (extract_permalink it = Ok EmptyString <->
    Forall (fun x => some_text (get_text x []) = false) urls)).
Proof.
  intros mods urls. split; [exact hollis_link_step_spec|]. split.
  - intros pre rel post u Hl Hpre Hrel. unfold extract_permalink. fold mods.
    rewrite Hl, (for_first_found _ _ _ _ _ Hpre Hrel). reflexivity.
  - intros Hnone. unfold extract_permalink. fold mods.
    rewrite (for_first_none _ _ Hnone). cbn [bind]. fold urls. split.
    + intros pre node post u Hl Hpre Hnode Hne.
      rewrite Hl, (first_text_found _ pre node post u Hpre Hnode Hne).
      apply truthy_nonempty in Hne. simpl. rewrite Hne. reflexivity.
    + rewrite <- first_text_empty. split; [intros [= H]; exact H | intros ->; reflexivity].
Qed.

Lemma extract_permalink_chain_witness :
  let finding := VDict [("@otherType", VStr "Finding Aid");
                        ("location", VDict [("url", VStr "https://example.org/aid")])] in
  let bare := VDict [("@otherType", VStr "HOLLIS record")] in
  let hollis := VDict [("@otherType", VStr "HOLLIS record");
                       ("location", VDict [("url", VStr "https://id.lib.harvard.edu/alma/1")])] in
  let loc := VDict [("url", VList [VDict [("@access", VStr "preview")];
                                   VStr "https://nrs.harvard.edu/urn-3"])] in
  extract_permalink (wrap (VDict [("relatedItem", VList [finding; bare; hollis]);
                                  ("location", loc)]))
  = Ok "https://id.lib.harvard.edu/alma/1" /\
  extract_permalink (wrap (VDict [("relatedItem", VList [finding; bare]);
                                  ("location", loc)]))
  = Ok "https://nrs.harvard.edu/urn-3".
Proof.
  intros finding bare hollis loc. split.
  - apply (proj1 (proj2 (extract_permalink_chain _)) [finding; bare] hollis []).
    + reflexivity.
    + repeat constructor.
    + reflexivity.
  - apply (proj1 (proj2 (proj2 (extract_permalink_chain
                                  (wrap (VDict [("relatedItem", VList [finding; bare]);
                                                ("location", loc)]))))
                    (Forall_cons finding (eq_refl (Ok None))
                       (Forall_cons bare (eq_refl (Ok None)) (Forall_nil _))))
             [VDict [("@access", VStr "preview")]] (VStr "https://nrs.harvard.edu/urn-3") []).
    + reflexivity.
    + repeat constructor.
    + reflexivity.
    + discriminate.
Defined.

(** ** Tables of contents and notes *)

Lemma text_list_nonempty o : Forall (fun s => s <> EmptyString) (text_list o).
Proof.
  unfold text_list. destruct (some_text o) eqn:E; [|constructor].
  constructor; [|constructor]. unfold some_text in E. unfold or_empty.
  destruct o as [s|]; [|discriminate]. rewrite E. apply truthy_nonempty. exact E.
Qed.

Lemma text_list_length o : length (text_list o) <= 1.
Proof.
  unfold text_list. destruct (some_text o); simpl; lia.
Qed.

Lemma flat_map_Forall {A B : Type} (P : B -> Prop) (f : A -> list B) l :
  (forall x, Forall P (f x)) -> Forall P (flat_map f l).
Proof.
  intros H. induction l as [|x l IH]; simpl; [constructor|].
  apply Forall_app. split; [apply H | exact IH].
Qed.

Lemma flat_map_short {A B : Type} (f : A -> list B) l :
  (forall x, length (f x) <= 1) -> length (flat_map f l) <= length l.
Proof.
  intros H. induction l as [|x l IH]; simpl; [lia|].
  rewrite length_app. specialize (H x). lia.
Qed.

Lemma for_collect_Forall {A B : Type} (P : B -> Prop) (body : A -> result (list B)) l :
  (forall x ys, body x = Ok ys -> Forall P ys /\ length ys <= 1) ->
  forall out, for_collect body l = Ok out -> Forall P out /\ length out <= length l.
Proof.
  intros Hb. induction l as [|x l IH]; simpl; intros out H.
  - injection H as <-. split; [constructor | simpl; lia].
  - bind_inv H. bind_inv H. injection H as <-.
    destruct (Hb x a Ha) as [H1 H2]. destruct (IH a0 Ha0) as [H3 H4].
    split; [apply Forall_app; split; assumption | rewrite length_app; lia].
Qed.

Lemma note_step_nonempty note ys :
  note_step note = Ok ys -> Forall (fun s => s <> EmptyString) ys /\ length ys <= 1.
Proof.
  unfold note_step. destruct (some_text (node_text note)) eqn:E.
  - intros H. bind_inv H. destruct (PyStr.truthy a) eqn:Et; injection H as <-.
    + split; [|simpl; lia]. constructor; [|constructor].
      destruct a; [discriminate Et | discriminate].
    + split; [|simpl; lia]. constructor; [|constructor].
      unfold some_text in E. unfold or_empty.
      destruct (node_text note) as [s|]; [|discriminate].
      rewrite E. apply truthy_nonempty. exact E.
  - intros [= <-]. split; [constructor | simpl; lia].
Qed.

(** X5.  The table-of-contents and notes lists of a row hold no empty
    string and at most one entry per source element, so an empty numbered
    cell of the output is always padding and never an entry. *)
Theorem row_lists_nonempty (it : item) (r : row) :
  row_from_item it = Ok r ->
  Forall (fun s => s <> EmptyString) (_tocs r) /\
  Forall (fun s => s <> EmptyString) (_notes r) /\
  length (_tocs r) <= length (as_list (nget (mods_of it) "tableOfContents")) /\
  length (_notes r) <= length (as_list (nget (mods_of it) "note")).
Proof.
  intros H. destruct (row_from_item_fields it r H)
    as [_ [_ [_ [_ [_ [_ [_ [_ [Hn Ht]]]]]]]]].
  destruct (for_collect_Forall _ note_step _ note_step_nonempty _ Hn) as [Hn1 Hn2].
  rewrite Ht. unfold extract_tocs, texts_under. simpl flat_map. rewrite !app_nil_r.
  repeat split; try assumption.
  - apply flat_map_Forall. intros x. apply text_list_nonempty.
  - apply flat_map_short. intros x. apply text_list_length.
Qed.

Lemma row_lists_nonempty_witness :
  let it := wrap (VDict [("tableOfContents", VList [VStr "I. Intro"; VDict [("@type", VStr "x")]]);
                         ("note", VList [VStr ""; VDict [("@type", VStr "bibliography");
                                                         ("#text", VStr "p. 9")]])]) in
  exists r,
    row_from_item it = Ok r /\
    _tocs r = ["I. Intro"] /\ _notes r = ["bibliography: p. 9"] /\
    Forall (fun s => s <> EmptyString) (_tocs r) /\
    Forall (fun s => s <> EmptyString) (_notes r).
Proof.
  intros it. eexists. split; [vm_compute; reflexivity|].
  split; [reflexivity|]. split; [reflexivity|].
  split; [apply (proj1 (row_lists_nonempty it _ eq_refl))
         | apply (proj1 (proj2 (row_lists_nonempty it _ eq_refl)))].
Defined.

(** ** Identifier *)

Lemma row_identifier it r :
  row_from_item it = Ok r ->
  let first_ident := first_text node_text (as_list (nget (mods_of it) "identifier")) in
  identifier r = if some_text first_ident then or_empty first_ident else hollis_number r.
Proof.
  unfold row_from_item. intros H. bind_inv H.
  destruct a as [[[n1 n2] n3] other].
  destruct (extract_repository_and_callnum (mods_of it)) as [repo callnum].
  do 8 bind_inv H. injection H as <-. reflexivity.
Qed.

Lemma first_text_some (f : value -> option string) l :
  some_text (first_text f l) = true <-> Exists (fun y => some_text (f y) = true) l.
Proof.
  induction l as [|y l IH]; simpl.
  - split; [discriminate | intros H; inversion H].
  - destruct (some_text (f y)) eqn:E.
    + split; [intros _; left; exact E | intros _; exact E].
    + rewrite IH. split; [intros H; right; exact H|].
      intros H. inversion H; [congruence | assumption].
Qed.

(** X6.  The identifier of a row is the text of the first identifier
    element that has text, whatever its type, and the HOLLIS number when no
    identifier element has text.  So a row with a HOLLIS number never has an
    empty identifier, and the identifier is empty exactly when the record
    has neither. *)
Theorem row_identifier_fallback (it : item) (r : row) :
  row_from_item it = Ok r ->
  let idents := as_list (nget (mods_of it) "identifier") in
  (forall pre idn post s,
     idents = pre ++ idn :: post ->
     Forall (fun x => some_text (node_text x) = false) pre ->
     node_text idn = Some s -> s <> EmptyString ->
     identifier r = s) /\
  (Forall (fun x => some_text (node_text x) = false) idents ->
   identifier r = hollis_number r) /\
  (hollis_number r <> EmptyString -> identifier r <> EmptyString) /\
  (identifier r = EmptyString <->
   hollis_number r = EmptyString /\
   Forall (fun x => some_text (node_text x) = false) idents).
Proof.
  intros H idents. pose proof (row_identifier it r H) as Hid. cbv zeta in Hid.
  fold idents in Hid.
  assert (Hnone : Forall (fun x => some_text (node_text x) = false) idents ->
                  some_text (first_text node_text idents) = false).
  { intros Hf. destruct (some_text (first_text node_text idents)) eqn:E; [|reflexivity].
    apply first_text_some in E. apply Exists_exists in E. destruct E as [x [Hx Ex]].
    rewrite Forall_forall in Hf. rewrite (Hf x Hx) in Ex. discriminate. }
  assert (Hsome : some_text (first_text node_text idents) = true ->
                  or_empty (first_text node_text idents) <> EmptyString).
  { unfold some_text, or_empty. destruct (first_text node_text idents) as [s|];
      [|discriminate]. intros E. rewrite E. apply truthy_nonempty. exact E. }
  split; [|split; [|split]].
  - intros pre idn post s Hl Hpre Hidn Hs. rewrite Hid, Hl.
    rewrite (first_text_found _ pre idn post s Hpre Hidn Hs).
    apply truthy_nonempty in Hs. simpl. rewrite Hs. reflexivity.
  - intros Hf. rewrite Hid, (Hnone Hf). reflexivity.
  - intros Hh. rewrite Hid.
    destruct (some_text (first_text node_text idents)) eqn:E;
      [apply Hsome; reflexivity | exact Hh].
  - rewrite Hid. destruct (some_text (first_text node_text idents)) eqn:E.
    + split.
      * intros H0. exfalso. apply (Hsome eq_refl). exact H0.
      * intros [_ Hf]. discriminate (Hnone Hf).
    + split.
      * intros H0. split; [exact H0|].
        apply first_text_empty. unfold or_empty.
        unfold some_text in E. destruct (first_text node_text idents); [|reflexivity].
        rewrite E. reflexivity.
      * intros [H0 _]. exact H0.
Qed.

Lemma row_identifier_fallback_witness :
  let it := wrap (VDict [("identifier", VList [VDict [("@type", VStr "isbn")];
                                               VDict [("@type", VStr "lccn"); ("#text", VStr "92001234")]]);
                         ("recordInfo", VDict [("recordIdentifier", VStr "990000000000000001")])]) in
  exists r,
    row_from_item it = Ok r /\ hollis_number r = "990000000000000001" /\
    identifier r = "92001234".
Proof.
  intros it. eexists. split; [vm_compute; reflexivity|]. split; [reflexivity|].
  apply (proj1 (row_identifier_fallback it _ eq_refl)
           [VDict [("@type", VStr "isbn")]]
           (VDict [("@type", VStr "lccn"); ("#text", VStr "92001234")]) [] "92001234").
  - reflexivity.
  - repeat constructor.
  - reflexivity.
  - discriminate.
Defined.

(** ** Typed names *)

(** X7.  A name entry with a type attribute other than "personal" feeds
    neither the Creator column nor the positional name columns, and one with
    a type other than "corporate" does not feed the corporate column: a
    typed name is in at most one group, and a name typed otherwise
    ("conference", "family") is in none. *)
Theorem typed_name_groups (n : value) (ntype : string) :
  attr_lower n "@type" = Ok ntype ->
  ntype <> EmptyString ->
  (ntype <> "personal" -> creator_step n = Ok [] /\ personal_step n = Ok []) /\
  (ntype <> "corporate" -> corporate_step n = Ok []).
Proof.
  intros Ht Hne. split.
  - intros Hp. assert (E : personal_type ntype = false).
    { destruct (personal_type ntype) eqn:E; [|reflexivity].
      apply personal_type_spec in E. tauto. }
    unfold creator_step, personal_step. rewrite Ht. cbn [bind]. rewrite E.
    split; reflexivity.
  - intros Hc. unfold corporate_step, corporate_test. rewrite Ht. cbn [bind].
    apply String.eqb_neq in Hc, Hne. rewrite Hc, Hne. reflexivity.
Qed.

Lemma typed_name_groups_witness :
  let n := VDict [("@type", VStr "Conference"); ("@usage", VStr "primary");
                  ("namePart", VStr "Symposium on Logic")] in
  creator_step n = Ok [] /\ personal_step n = Ok [] /\ corporate_step n = Ok [].
Proof.
  intros n.
  destruct (typed_name_groups n "conference" eq_refl ltac:(discriminate)) as [H1 H2].
  split; [apply H1; discriminate|]. split; [apply H1; discriminate | apply H2; discriminate].
Defined.

(** ** The processing loop *)

Section LoopFacts.

Variable max_records : Z.

Lemma process_items_cap items : forall st st',
  written st = 0 \/ capped max_records st = false ->
  process_items max_records st items = Ok st' ->
  (Z.of_nat (written st') <= Z.max 1 max_records)%Z.
Proof.
  induction items as [|it rest IH]; simpl; intros st st' Hq H.
  - injection H as <-. destruct Hq as [-> | Hq]; [simpl; lia|].
    unfold capped in Hq. apply Z.leb_gt in Hq. lia.
  - bind_inv H. destruct (key_in (dedup_key a) (seen_keys st)); [eapply IH; eauto|].
    destruct (capped max_records (accept st a)) eqn:E.
    + injection H as <-. simpl. destruct Hq as [-> | Hq]; [simpl; lia|].
      unfold capped in Hq. apply Z.leb_gt in Hq. lia.
    + eapply IH; [right; exact E | exact H].
Qed.

Variable page : Z -> result (list item).

Lemma process_loop_cap starts : forall st items st',
  written st = 0 \/ capped max_records st = false ->
  process_loop max_records page st items starts = Ok st' ->
  (Z.of_nat (written st') <= Z.max 1 max_records)%Z.
Proof.
  induction starts as [|start later IH]; intros st items st' Hq H;
    cbn [process_loop] in H; bind_inv H;
    pose proof (process_items_cap _ _ _ Hq Ha) as Hb;
    destruct (capped max_records a) eqn:E; try (injection H as <-; exact Hb).
  bind_inv H. destruct a0 as [|x xs].
  - injection H as <-. exact Hb.
  - eapply IH; [right; exact E | exact H].
Qed.

End LoopFacts.

(** X8.  A harvest never accepts more rows than [max_records], except that
    the cap is tested only after a row has been accepted: with a cap of zero
    or less one row is still written. *)
Theorem record_cap (max_records : Z) (page : Z -> result (list item))
    (page_size num_found : Z) (st : state) :
  harvest max_records page page_size num_found = Ok st ->
  (Z.of_nat (length (rows st)) <= Z.max 1 max_records)%Z.
Proof.
  intros H. rewrite <- (written_rows st (harvest_coherent _ _ _ _ _ H)).
  unfold harvest in H. bind_inv H.
  exact (process_loop_cap max_records page _ init a st (or_introl eq_refl) H).
Qed.

Lemma record_cap_witness :
  let record h := wrap (VDict [("recordInfo", VDict [("recordIdentifier", VStr h)])]) in
  let page (start : Z) :=
    Ok (A := list item) [record "990000000000000001"; record "990000000000000002"] in
  exists st,
    harvest 0 page 50 2 = Ok st /\ length (rows st) = 1 /\
    (Z.of_nat (length (rows st)) <= Z.max 1 0)%Z.
Proof.
  intros record page. eexists. split; [vm_compute; reflexivity|].
  split; [reflexivity|]. apply (record_cap 0 page 50 2 _ eq_refl).
Defined.

(** X9.  One pass of the record loop appends to the accepted rows the rows
    of the records it reached, in their order, keeping for each key the
    first record that has it; unless the cap stops the pass it reaches every
    record of the page. *)
Theorem process_items_first_wins (max_records : Z) (st st' : state) (items : list item) :
  process_items max_records st items = Ok st' ->
  exists k rs,
    k <= length items /\
    rows_of (firstn k items) = Ok rs /\
    rows st' = rows st ++ first_by_key (seen_keys st) rs /\
    (capped max_records st' = false -> k = length items).
Proof.
  revert st st'. induction items as [|it rest IH]; simpl; intros st st' H.
  - injection H as <-. exists 0, []. rewrite app_nil_r. repeat split; auto.
  - bind_inv H. destruct (key_in (dedup_key a) (seen_keys st)) eqn:Ek.
    + destruct (IH _ _ H) as [k [rs [Hk [Hrs [Hrows Hcap]]]]].
      exists (S k), (a :: rs). split; [lia|]. split.
      * unfold rows_of in *. simpl. rewrite Ha. cbn [bind]. rewrite Hrs. reflexivity.
      * simpl. rewrite Ek. split; [exact Hrows | intros Hc; rewrite (Hcap Hc); reflexivity].
    + destruct (capped max_records (accept st a)) eqn:Ec.
      * injection H as <-. exists 1, [a]. split; [lia|]. split.
        -- unfold rows_of. simpl. rewrite Ha. reflexivity.
        -- simpl. rewrite Ek. split; [reflexivity | congruence].
      * destruct (IH _ _ H) as [k [rs [Hk [Hrs [Hrows Hcap]]]]].
        exists (S k), (a :: rs). split; [lia|]. split.
        -- unfold rows_of in *. simpl. rewrite Ha. cbn [bind]. rewrite Hrs. reflexivity.
        -- simpl. rewrite Ek. simpl in Hrows. rewrite <- app_assoc in Hrows.
           split; [exact Hrows | intros Hc; rewrite (Hcap Hc); reflexivity].
Qed.

Lemma process_items_first_wins_witness :
  let record h t :=
    wrap (VDict [("recordInfo", VDict [("recordIdentifier", VStr h)]);
                 ("titleInfo", VDict [("title", VStr t)])]) in
  let items := [record "990000000000000001" "first"; record "990000000000000002" "other";
                record "990000000000000001" "again"] in
  exists st',
    process_items 10 init items = Ok st' /\
    map title (rows st') = ["first"; "other"] /\
    exists k rs,
      k <= 3 /\ rows_of (firstn k items) = Ok rs /\
      rows st' = rows init ++ first_by_key (seen_keys init) rs /\
      (capped 10 st' = false -> k = 3).
Proof.
  intros record items. eexists. split; [vm_compute; reflexivity|].
  split; [reflexivity|].
  apply (process_items_first_wins 10 init _ items). vm_compute. reflexivity.
Defined.

(** ** Pagination *)

Lemma offsets_spec limit num_found z :
  (1 <= limit)%Z ->
  In z (offsets limit num_found) <->
  exists j, (1 <= j)%Z /\ z = (j * limit)%Z /\ (z < num_found)%Z.
Proof.
  intros Hl. unfold offsets. rewrite in_map_iff. split.
  - intros [j [<- Hj]]. apply in_seq in Hj. exists (Z.of_nat j).
    split; [lia|]. split; [reflexivity|].
    assert (Hq : (Z.of_nat j <= (num_found - 1) / limit)%Z) by lia.
    pose proof (Z.mul_div_le (num_found - 1) limit ltac:(lia)). nia.
  - intros [j [Hj [-> Hz]]]. exists (Z.to_nat j). split; [f_equal; lia|].
    apply in_seq.
    assert (Hq : (j <= (num_found - 1) / limit)%Z).
    { apply Z.div_le_lower_bound; lia. }
    lia.
Qed.

Lemma process_loop_ext max_records page page' starts : forall st items,
  (forall z, In z starts -> page' z = page z) ->
  process_loop max_records page' st items starts
  = process_loop max_records page st items starts.
Proof.
  induction starts as [|start later IH]; intros st items Hp; cbn [process_loop];
    destruct (process_items max_records st items) as [st'|e]; cbn [bind]; try reflexivity.
  destruct (capped max_records st'); [reflexivity|].
  rewrite (Hp start (or_introl eq_refl)).
  destruct (page start) as [[|x xs]|e]; cbn [bind]; try reflexivity.
  apply IH. intros z Hz. apply Hp. right. exact Hz.
Qed.

(** X10.  A harvest asks for pages of between 1 and 250 records, and only
    at offset 0 and at the multiples of that page size below numFound: what
    the service would answer anywhere else has no effect on the result. *)
Theorem harvest_pages (max_records : Z) (page page' : Z -> result (list item))
    (page_size num_found : Z) :
  let limit := Z.max 1 (Z.min page_size 250) in
  page' 0%Z = page 0%Z ->
  (forall j, (1 <= j)%Z -> (j * limit < num_found)%Z -> page' (j * limit)%Z = page (j * limit)%Z) ->
  (1 <= limit <= 250)%Z /\
  harvest max_records page' page_size num_found
  = harvest max_records page page_size num_found.
Proof.
  intros limit H0 Hp. split; [unfold limit; lia|].
  unfold harvest. fold limit. rewrite H0.
  destruct (page 0%Z) as [items|e]; cbn [bind]; [|reflexivity].
  apply process_loop_ext. intros z Hz.
  apply offsets_spec in Hz; [|unfold limit; lia].
  destruct Hz as [j [Hj [-> Hz]]]. apply Hp; assumption.
Qed.

Lemma harvest_pages_witness :
  let record h := wrap (VDict [("recordInfo", VDict [("recordIdentifier", VStr h)])]) in
  let page (start : Z) :=
    if (start =? 0)%Z then Ok [record "990000000000000001"]
    else if (start =? 1)%Z then Ok [record "990000000000000002"]
    else Raise TransportError in
  let page' (start : Z) :=
    if (start =? 0)%Z then Ok [record "990000000000000001"]
    else if (start =? 1)%Z then Ok [record "990000000000000002"]
    else Ok [record "990000000000000003"] in
  harvest 10 page' 0 2 = harvest 10 page 0 2 /\
  exists st, harvest 10 page 0 2 = Ok st /\ length (rows st) = 2.
Proof.
  intros record page page'. split.
  - apply (harvest_pages 10 page page' 0 2).
    + reflexivity.
    + intros j Hj Hlt. change (Z.max 1 (Z.min 0 250)) with 1%Z in *.
      assert (j = 1%Z) as -> by lia. reflexivity.
  - eexists. split; [vm_compute; reflexivity | reflexivity].
Defined.

(** ** Header *)

Lemma numbered_NoDup_names prefix n : NoDup (numbered prefix n).
Proof.
  apply numbered_NoDup.
Qed.

(** X11.  The header never names a column twice, whatever the numbers of
    toc and note columns: no numbered column hides a base column or another
    numbered one when a row is written. *)
Theorem fieldnames_distinct (st : state) : NoDup (fieldnames st).
Proof.
  unfold fieldnames. apply NoDup_app; [exact BASE_COLUMNS_NoDup | |].
  - apply NoDup_app; [apply numbered_NoDup_names | apply numbered_NoDup_names |].
    intros k Ht Hn. apply numbered_prefix in Ht. apply numbered_prefix in Hn.
    destruct k as [|c k]; [discriminate|]. cbn [PyStr.startswith] in Ht, Hn.
    destruct (Ascii.eqb "t" c) eqn:E; [|discriminate].
    apply Ascii.eqb_eq in E. subst c. discriminate.
  - intros k Hb Hk.
    assert (Hp : PyStr.startswith "toc" k = false /\ PyStr.startswith "note" k = false).
    { unfold BASE_COLUMNS in Hb. simpl in Hb.
      repeat (destruct Hb as [<-|Hb]; [split; reflexivity|]). contradiction. }
    apply in_app_or in Hk. destruct Hk as [Hk|Hk]; apply numbered_prefix in Hk;
      destruct Hp; congruence.
Qed.

(** ** Normalised mappings *)

Lemma find_snoc {A : Type} (p : A -> bool) l x :
  find p (l ++ [x]) = match find p l with
                      | Some y => Some y
                      | None => if p x then Some x else None
                      end.
Proof.
  induction l as [|y l IH]; simpl; [reflexivity|].
  destruct (p y); [reflexivity | exact IH].
Qed.

Lemma strip_entries_get d : forall out k,
  dict_get (fold_left strip_entry d out) k =
  match find (fun kv => String.eqb (strip_key (fst kv)) k) (rev d) with
  | Some kv => Some (strip_ns (snd kv))
  | None => dict_get out k
  end.
Proof.
  induction d as [|kv d IH]; intros out k; simpl; [reflexivity|].
  rewrite IH, find_snoc.
  destruct (find (fun kv0 => String.eqb (strip_key (fst kv0)) k) (rev d)); [reflexivity|].
  unfold strip_entry. rewrite dict_get_set.
  destruct (String.eqb (strip_key (fst kv)) k); reflexivity.
Qed.

Lemma strip_entries_NoDup d : forall out,
  NoDup (map fst out) -> NoDup (map fst (fold_left strip_entry d out)).
Proof.
  induction d as [|kv d IH]; intros out H; simpl; [exact H|].
  apply IH. apply dict_set_NoDup. exact H.
Qed.

(** X12.  Normalising any mapping gives a mapping with pairwise distinct
    keys.  When several keys collapse to one stripped key, the value kept
    is the normalised value of the last of them in mapping order: the
    earlier ones are lost without notice. *)
Theorem strip_ns_last_wins (d : dict) :
  exists d',
    strip_ns (VDict d) = VDict d' /\
    NoDup (map fst d') /\
    forall k,
      dict_get d' k =
      option_map (fun kv => strip_ns (snd kv))
                 (find (fun kv => String.eqb (strip_key (fst kv)) k) (rev d)).
Proof.
  exists (fold_left strip_entry d []). split; [apply strip_ns_dict|].
  split; [apply strip_entries_NoDup; constructor|].
  intros k. rewrite strip_entries_get.
  destruct (find (fun kv => String.eqb (strip_key (fst kv)) k) (rev d)); reflexivity.
Qed.

Lemma clean_suffix_lookup d k :
  Forall (fun kv => colons (fst kv) = 0 /\ clean (snd kv)) d ->
  dict_get d k = None -> suffix_lookup d k = None.
Proof.
  induction 1 as [|[k0 v0] d [Hk _] _ IH]; simpl; intros Hg; [reflexivity|].
  simpl in Hk. rewrite (local_name_plain k0 Hk).
  destruct (String.eqb k0 k); [discriminate | auto].
Qed.

(** X13.  On a normalised tree of qualified names the namespace-insensitive
    lookup is the plain lookup: no key has a prefix left, so the search by
    local name finds nothing the exact key does not. *)
Theorem nget_after_strip_ns (t : value) (k : string) :
  qnames t = true ->
  nget (strip_ns t) k =
  match strip_ns t with
  | VDict d' => get d' k
  | _ => VNone
  end.
Proof.
  intros Hq. pose proof (strip_ns_clean t Hq) as Hc.
  destruct (strip_ns t) as [| s | z | l | d']; try reflexivity.
  inversion Hc as [| | | |? _ Hf]; subst.
  unfold nget, get, get_default.
  destruct (dict_get d' k) eqn:E; [reflexivity|].
  rewrite (clean_suffix_lookup d' k Hf E). reflexivity.
Qed.

Lemma nget_after_strip_ns_witness :
  let t := VDict [("mods:titleInfo", VDict [("mods:title", VStr "Store")]);
                  ("mods:name", VNone)] in
  nget (strip_ns t) "titleInfo" = VDict [("title", VStr "Store")] /\
  nget (strip_ns t) "mods:titleInfo" = VNone.
Proof.
  intros t. split.
  - rewrite (nget_after_strip_ns t "titleInfo" eq_refl). reflexivity.
  - rewrite (nget_after_strip_ns t "mods:titleInfo" eq_refl). reflexivity.
Defined.

(** ** Exceptions of the row builder *)

Section RaisesOnly.

Variable e0 : exn.

Lemma roa_ok {A : Type} (a : A) : raises_only e0 (Ok a).
Proof.
  intros e H. discriminate H.
Qed.

Lemma roa_bind {A B : Type} (m : result A) (k : A -> result B) :
  raises_only e0 m -> (forall a, raises_only e0 (k a)) -> raises_only e0 (bind m k).
Proof.
  intros Hm Hk e H. destruct m as [a|e1]; simpl in H.
  - exact (Hk a e H).
  - injection H as <-. apply Hm. reflexivity.
Qed.

Lemma roa_for_collect {A B : Type} (body : A -> result (list B)) l :
  (forall x, raises_only e0 (body x)) -> raises_only e0 (for_collect body l).
Proof.
  intros Hb. induction l as [|x l IH]; simpl.
  - apply roa_ok.
  - apply roa_bind; [apply Hb|]. intros ys.
    apply roa_bind; [exact IH|]. intros zs. apply roa_ok.
Qed.

Lemma roa_for_first {A B : Type} (body : A -> result (option B)) l :
  (forall x, raises_only e0 (body x)) -> raises_only e0 (for_first body l).
Proof.
  intros Hb. induction l as [|x l IH]; simpl.
  - apply roa_ok.
  - apply roa_bind; [apply Hb|]. intros [b|]; [apply roa_ok | exact IH].
Qed.

End RaisesOnly.

Lemma roa_raise {A : Type} e0 : raises_only e0 (@Raise A e0).
Proof.
  intros e H. injection H as <-. reflexivity.
Qed.

Lemma roa_corporate_test e0 n ntype : raises_only e0 (corporate_test n ntype).
Proof.
  destruct (corporate_test_total n ntype) as [b ->]. apply roa_ok.
Qed.

Ltac roa :=
  repeat (intros;
          match goal with
          | |- raises_only _ (Ok _) => apply roa_ok
          | |- raises_only _ (Raise AttributeError) => apply roa_raise
          | |- raises_only _ (bind _ _) => apply roa_bind
          | |- raises_only _ (for_collect _ _) => apply roa_for_collect
          | |- raises_only _ (for_first _ _) => apply roa_for_first
          | |- raises_only _ (corporate_test _ _) => apply roa_corporate_test
          | |- raises_only _ (if ?b then _ else _) => destruct b
          | |- raises_only _ (match ?x with _ => _ end) => destruct x
          end).

Lemma roa_attr_lower n k : raises_only AttributeError (attr_lower n k).
Proof.
  unfold attr_lower, str_method. roa.
Qed.

Lemma roa_attr_strip n k : raises_only AttributeError (attr_strip n k).
Proof.
  unfold attr_strip, str_method. roa.
Qed.

Lemma roa_display n : raises_only AttributeError (_display_name_with_dates n).
Proof.
  unfold _display_name_with_dates. apply roa_bind; [|roa].
  generalize (@nil string) at 1 as o. generalize (@nil string) as d.
  induction (as_list (nget n "namePart")) as [|np nps IH]; intros d o;
    cbn [name_parts_loop]; [roa|].
  apply roa_bind; [unfold name_part_text; roa|]. intros txt.
  destruct (negb (PyStr.truthy txt)); [apply IH|].
  apply roa_bind; [apply roa_attr_lower|]. intros tp.
  destruct (String.eqb tp "date"); apply IH.
Qed.

Lemma roa_is_creator n : raises_only AttributeError (is_creator n).
Proof.
  unfold is_creator, role_term_matches, str_method. roa.
Qed.

Lemma roa_row_from_item (it : item) : raises_only AttributeError (row_from_item it).
Proof.
  unfold row_from_item.
  apply roa_bind.
  { unfold extract_personal_names_split, personal_names, personal_step.
    apply roa_bind; [|roa]. apply roa_bind; [|roa]. apply roa_for_collect. intros n.
    apply roa_bind; [apply roa_attr_lower|]. intros t.
    destruct (negb (personal_type t)); [roa|].
    apply roa_bind; [apply roa_display | roa]. }
  intros [[[n1 n2] n3] other].
  destruct (extract_repository_and_callnum (mods_of it)) as [repo callnum].
  apply roa_bind.
  { unfold extract_hollis_number, rid_step, rel_step, ext_step.
    apply roa_bind; [|roa]. apply roa_for_first. intros ri. apply roa_for_first. intros x.
    apply roa_bind; [apply roa_attr_lower | roa]. }
  intros hollis. apply roa_bind.
  { unfold extract_title, title_step. apply roa_bind; [|roa].
    apply roa_for_collect. intros x. apply roa_bind; [apply roa_attr_lower | roa]. }
  intros ttl. apply roa_bind.
  { unfold extract_variant_titles, variant_step. apply roa_bind; [|roa].
    apply roa_for_collect. intros x. apply roa_bind; [apply roa_attr_lower | roa]. }
  intros variant. apply roa_bind.
  { unfold extract_creators, creators, creator_step.
    apply roa_bind; [|roa]. apply roa_bind; [|roa]. apply roa_for_collect. intros n.
    apply roa_bind; [apply roa_attr_lower|]. intros t.
    destruct (negb (personal_type t)); [roa|].
    apply roa_bind; [apply roa_is_creator|]. intros c.
    apply roa_bind.
    - destruct c; [roa|]. apply roa_bind; [apply roa_attr_lower | roa].
    - intros keep. destruct (negb keep); [roa|].
      apply roa_bind; [apply roa_display | roa]. }
  intros crt. apply roa_bind.
  { unfold extract_corporate_names, corporate_names, corporate_step.
    apply roa_bind; [|roa]. apply roa_bind; [|roa]. apply roa_for_collect. intros n.
    apply roa_bind; [apply roa_attr_lower|]. intros t.
    apply roa_bind; [apply roa_corporate_test|]. intros c.
    destruct c; [|roa]. apply roa_bind; [apply roa_display | roa]. }
  intros corp. apply roa_bind.
  { unfold extract_issue_number, issue_step. apply roa_bind; [|roa].
    apply roa_for_collect. intros x. apply roa_bind; [apply roa_attr_lower | roa]. }
  intros issue. apply roa_bind.
  { unfold extract_permalink, hollis_link_step. apply roa_bind; [|roa].
    apply roa_for_first. intros x. apply roa_bind; [apply roa_attr_lower | roa]. }
  intros link. apply roa_bind; [|roa].
  unfold extract_notes, note_step. apply roa_for_collect. intros x.
  destruct (some_text (node_text x)); [|roa].
  apply roa_bind; [apply roa_attr_strip | roa].
Qed.

(** X14.  The index [0] in the corporate-name test is never out of range:
    the test runs [as_list(...)[0]] only behind a check that the list has
    one element, so neither the test, nor the corporate-name extractor, nor
    the row builder raises IndexError. *)
Theorem row_from_item_no_index_error (it : item) :
  (forall n ntype, corporate_test n ntype <> Raise IndexError) /\
  (forall mods, extract_corporate_names mods <> Raise IndexError) /\
  row_from_item it <> Raise IndexError.
Proof.
  split; [|split].
  - intros n ntype H. destruct (corporate_test_total n ntype) as [b Hb]. congruence.
  - intros mods H.
    assert (Hr : raises_only AttributeError (extract_corporate_names mods)).
    { unfold extract_corporate_names, corporate_names, corporate_step.
      apply roa_bind; [|roa]. apply roa_bind; [|roa]. apply roa_for_collect. intros n.
      apply roa_bind; [apply roa_attr_lower|]. intros t.
      apply roa_bind; [apply roa_corporate_test|]. intros c.
      destruct c; [|roa]. apply roa_bind; [apply roa_display | roa]. }
    specialize (Hr IndexError H). discriminate Hr.
  - intros H. pose proof (roa_row_from_item it IndexError H) as Hr. discriminate Hr.
Qed.

(** ** When a row builds *)

Lemma attrs_text_In d k v :
  attrs_text (VDict d) = true -> In (k, v) d ->
  attrs_text v = true /\ (PyStr.startswith "@" k = true -> is_str v = true).
Proof.
  simpl. rewrite forallb_forall. intros H Hin. specialize (H (k, v) Hin).
  simpl in H. apply andb_prop in H. destruct H as [H1 H2]. split; [exact H2|].
  intros E. rewrite E in H1. exact H1.
Qed.

Lemma dict_get_In {V : Type} (d : list (string * V)) k v :
  dict_get d k = Some v -> In (k, v) d.
Proof.
  induction d as [|[k0 v0] d IH]; simpl; [discriminate|].
  destruct (String.eqb k0 k) eqn:E.
  - apply String.eqb_eq in E. intros [= ->]. left. congruence.
  - intros H. right. auto.
Qed.

Lemma suffix_lookup_In d k v :
  suffix_lookup d k = Some v -> exists k', In (k', v) d.
Proof.
  induction d as [|[k0 v0] d IH]; simpl; [discriminate|].
  destruct (String.eqb (local_name k0) k).
  - intros [= ->]. exists k0. left. reflexivity.
  - intros H. destruct (IH H) as [k' Hk]. exists k'. right. exact Hk.
Qed.

Lemma attrs_text_nget t k : attrs_text t = true -> attrs_text (nget t k) = true.
Proof.
  intros H. destruct t as [| | | |d]; try reflexivity. unfold nget.
  destruct (dict_get d k) as [v|] eqn:E.
  - apply dict_get_In in E. apply (attrs_text_In d k v H E).
  - destruct (suffix_lookup d k) as [v|] eqn:E'; [|reflexivity].
    apply suffix_lookup_In in E'. destruct E' as [k' Hk].
    apply (attrs_text_In d k' v H Hk).
Qed.

Lemma attrs_text_as_list x :
  attrs_text x = true -> Forall (fun y => attrs_text y = true) (as_list x).
Proof.
  intros H. destruct x as [| | |l|d]; simpl; try (repeat constructor; exact H).
  simpl in H. rewrite forallb_forall in H. apply Forall_forall. exact H.
Qed.

(** The nodes an extractor loops over inherit the shape of the record. *)
Lemma attrs_text_under t k :
  attrs_text t = true -> Forall (fun y => attrs_text y = true) (as_list (nget t k)).
Proof.
  intros H. apply attrs_text_as_list, attrs_text_nget, H.
Qed.

Lemma attr_value_text n k f :
  attrs_text n = true -> PyStr.startswith "@" k = true ->
  match n with
  | VDict d => exists s, str_method f (py_or (get d k) (VStr EmptyString)) = Ok s
  | _ => True
  end.
Proof.
  intros H Hk. destruct n as [| | | |d]; try exact I.
  unfold get, get_default. destruct (dict_get d k) as [v|] eqn:E.
  - apply dict_get_In in E. destruct (attrs_text_In d k v H E) as [_ Hs].
    specialize (Hs Hk). destruct v; try discriminate.
    unfold py_or. destruct (truthy (VStr s)); simpl; eauto.
  - simpl. eauto.
Qed.

Lemma attr_lower_text n k :
  attrs_text n = true -> PyStr.startswith "@" k = true ->
  exists s, attr_lower n k = Ok s.
Proof.
  intros H Hk. pose proof (attr_value_text n k PyStr.lower H Hk) as Ha.
  unfold attr_lower. destruct n; eauto.
Qed.

Lemma attr_strip_text n k :
  attrs_text n = true -> PyStr.startswith "@" k = true ->
  exists s, attr_strip n k = Ok s.
Proof.
  intros H Hk. pose proof (attr_value_text n k PyStr.strip H Hk) as Ha.
  unfold attr_strip. destruct n; eauto.
Qed.

Lemma for_collect_total {A B : Type} (body : A -> result (list B)) l :
  Forall (fun x => exists ys, body x = Ok ys) l -> exists out, for_collect body l = Ok out.
Proof.
  induction 1 as [|x l [ys Hx] _ [zs IH]]; simpl; [eauto|].
  rewrite Hx, IH. simpl. eauto.
Qed.

Lemma for_first_total {A B : Type} (body : A -> result (option B)) l :
  Forall (fun x => exists y, body x = Ok y) l -> exists r, for_first body l = Ok r.
Proof.
  induction 1 as [|x l [y Hx] _ [r IH]]; simpl; [eauto|].
  rewrite Hx. simpl. destruct y; eauto.
Qed.

Lemma Forall_shape (P : value -> Prop) l :
  (forall x, attrs_text x = true -> P x) ->
  Forall (fun y => attrs_text y = true) l -> Forall P l.
Proof.
  intros H Hl. eapply Forall_impl; [|exact Hl]. exact H.
Qed.

Lemma name_parts_loop_total nps : forall o d,
  Forall (fun np => attrs_text np = true) nps ->
  Forall (fun np => part_has_text np = true) nps ->
  exists r, name_parts_loop nps o d = Ok r.
Proof.
  induction nps as [|np nps IH]; intros o d Ha Hp; cbn [name_parts_loop]; [eauto|].
  inversion Ha as [|? ? Ha1 Ha2]; subst. inversion Hp as [|? ? Hp1 Hp2]; subst.
  assert (Ht : exists txt, name_part_text np = Ok txt).
  { unfold name_part_text. unfold part_has_text in Hp1.
    destruct np; eauto. destruct (get_text (VDict d0) []); [eauto | discriminate]. }
  destruct Ht as [txt ->]. cbn [bind].
  destruct (negb (PyStr.truthy txt)); [apply IH; assumption|].
  destruct (attr_lower_text np "@type" Ha1 eq_refl) as [tp ->]. cbn [bind].
  destruct (String.eqb tp "date"); apply IH; assumption.
Qed.

Lemma display_total n :
  attrs_text n = true ->
  Forall (fun np => part_has_text np = true) (as_list (nget n "namePart")) ->
  exists s, _display_name_with_dates n = Ok s.
Proof.
  intros Ha Hp. unfold _display_name_with_dates.
  destruct (name_parts_loop_total _ [] [] (attrs_text_under n "namePart" Ha) Hp)
    as [[o d] ->].
  simpl. eauto.
Qed.

Lemma is_creator_total n : attrs_text n = true -> exists b, is_creator n = Ok b.
Proof.
  intros Ha. unfold is_creator.
  assert (H : exists flags,
             for_collect
               (fun role =>
                  for_collect (fun rt => b <- role_term_matches rt ;; Ok [b])
                    (as_list (nget role "roleTerm")))
               (as_list (nget n "role")) = Ok flags).
  { apply for_collect_total.
    eapply Forall_shape; [|apply (attrs_text_under n "role" Ha)]. intros role Hr.
    apply for_collect_total.
    eapply Forall_shape; [|apply (attrs_text_under role "roleTerm" Hr)]. intros rt Hrt.
    rewrite role_term_matches_eq.
    destruct (attr_lower_text rt "@type" Hrt eq_refl) as [tp ->]. simpl. eauto. }
  destruct H as [flags ->]. simpl. eauto.
Qed.

Section StepsBuild.

Variable n : value.
Hypothesis shape : attrs_text n = true.

Lemma title_step_total : exists ys, title_step n = Ok ys.
Proof.
  unfold title_step. destruct (attr_lower_text n "@type" shape eq_refl) as [t ->].
  cbn [bind]. destruct (_ && _); eauto.
Qed.

Lemma variant_step_total : exists ys, variant_step n = Ok ys.
Proof.
  unfold variant_step. destruct (attr_lower_text n "@type" shape eq_refl) as [t ->].
  cbn [bind]. destruct (mem t variant_types); [|eauto].
  destruct (_ || _); [|eauto]. destruct (PyStr.truthy _); eauto.
Qed.

Lemma issue_step_total : exists ys, issue_step n = Ok ys.
Proof.
  unfold issue_step. destruct (attr_lower_text n "@type" shape eq_refl) as [t ->].
  cbn [bind]. destruct (_ && _); eauto.
Qed.

Lemma rid_step_total : exists y, rid_step n = Ok y.
Proof.
  unfold rid_step. destruct (attr_lower_text n "@source" shape eq_refl) as [t ->].
  cbn [bind]. destruct (_ && _); eauto.
Qed.

Lemma hollis_link_step_total : exists y, hollis_link_step n = Ok y.
Proof.
  unfold hollis_link_step.
  destruct (attr_lower_text n "@otherType" shape eq_refl) as [t ->].
  cbn [bind]. destruct (PyStr.contains "hollis" t); [|eauto].
  destruct (some_text _); eauto.
Qed.

Lemma note_step_total : exists ys, note_step n = Ok ys.
Proof.
  unfold note_step. destruct (some_text (node_text n)); [|eauto].
  destruct (attr_strip_text n "@type" shape eq_refl) as [t ->].
  cbn [bind]. destruct (PyStr.truthy t); eauto.
Qed.

Hypothesis parts : Forall (fun np => part_has_text np = true) (as_list (nget n "namePart")).

Lemma personal_step_total : exists ys, personal_step n = Ok ys.
Proof.
  unfold personal_step. destruct (attr_lower_text n "@type" shape eq_refl) as [t ->].
  cbn [bind]. destruct (negb (personal_type t)); [eauto|].
  destruct (display_total n shape parts) as [s ->]. cbn [bind].
  destruct (PyStr.truthy s); eauto.
Qed.

Lemma creator_step_total : exists ys, creator_step n = Ok ys.
Proof.
  unfold creator_step. destruct (attr_lower_text n "@type" shape eq_refl) as [t ->].
  cbn [bind]. destruct (negb (personal_type t)); [eauto|].
  destruct (is_creator_total n shape) as [c ->]. cbn [bind].
  assert (Hk : exists keep,
             (if c then Ok true
              else usage <- attr_lower n "@usage" ;; Ok (String.eqb usage "primary"))
             = Ok keep).
  { destruct c; [eauto|].
    destruct (attr_lower_text n "@usage" shape eq_refl) as [u ->]. simpl. eauto. }
  destruct Hk as [keep ->]. cbn [bind]. destruct (negb keep); [eauto|].
  destruct (display_total n shape parts) as [s ->]. cbn [bind].
  destruct (PyStr.truthy s); eauto.
Qed.

Lemma corporate_step_total : exists ys, corporate_step n = Ok ys.
Proof.
  unfold corporate_step. destruct (attr_lower_text n "@type" shape eq_refl) as [t ->].
  cbn [bind]. destruct (corporate_test_total n t) as [c ->]. cbn [bind].
  destruct c; [|eauto].
  destruct (display_total n shape parts) as [s ->]. cbn [bind].
  destruct (PyStr.truthy s); eauto.
Qed.

End StepsBuild.



(** ** Name columns *)

Lemma personal_step_nonempty n ys :
  personal_step n = Ok ys -> Forall (fun s => s <> EmptyString) ys /\ length ys <= 1.
Proof.
  unfold personal_step. intros H. bind_inv H.
  destruct (negb (personal_type a)).
  - injection H as <-. split; [constructor | simpl; lia].
  - bind_inv H. destruct (PyStr.truthy a0) eqn:E; injection H as <-.
    + split; [|simpl; lia]. constructor; [apply truthy_nonempty; exact E | constructor].
    + split; [constructor | simpl; lia].
Qed.

Lemma personal_names_distinct mods names :
  personal_names mods = Ok names ->
  NoDup names /\ Forall (fun s => s <> EmptyString) names.
Proof.
  unfold personal_names. intros H. bind_inv H. injection H as <-.
  split; [apply dedup_from_NoDup|].
  destruct (for_collect_Forall _ personal_step _ personal_step_nonempty _ Ha) as [Hf _].
  rewrite Forall_forall in Hf |- *. intros x Hx. apply Hf. apply dedup_In. exact Hx.
Qed.

(** X16.  The positional name columns are filled from the left without
    gaps and without repeats: name2 is set only if name1 is, name3 only if
    name2 is, names_other only if name3 is, and the names in name1, name2,
    name3 differ from one another. *)
Theorem name_columns_no_gaps (mods : value) (n1 n2 n3 other : string) :
  extract_personal_names_split mods = Ok (n1, n2, n3, other) ->
  (n2 <> EmptyString -> n1 <> EmptyString /\ n1 <> n2) /\
  (n3 <> EmptyString -> n2 <> EmptyString /\ n3 <> n1 /\ n3 <> n2) /\
  (other <> EmptyString -> n3 <> EmptyString).
Proof.
  intros H. pose proof H as H'. unfold extract_personal_names_split in H'.
  bind_inv H'. clear H'.
  destruct (personal_names_distinct mods a Ha) as [Hd Hne].
  destruct (personal_names_columns mods a n1 n2 n3 other Ha H) as [-> [-> [-> ->]]].
  destruct a as [|x [|y [|z rest]]]; simpl; try (repeat split; intros; congruence).
  - inversion Hne as [|? ? Hx Hne']; subst. inversion Hne' as [|? ? Hy _]; subst.
    inversion Hd as [|? ? Hxd _]; subst. simpl in Hxd.
    repeat split; intros; try congruence. intros ->. tauto.
  - inversion Hne as [|? ? Hx Hne']; subst. inversion Hne' as [|? ? Hy Hne'']; subst.
    inversion Hne'' as [|? ? Hz _]; subst.
    inversion Hd as [|? ? Hxd Hd']; subst. inversion Hd' as [|? ? Hyd _]; subst.
    simpl in Hxd, Hyd.
    repeat split; intros; try congruence; intros E; subst; tauto.
Qed.

Lemma name_columns_no_gaps_witness :
  let person p := VDict [("@type", VStr "personal"); ("namePart", VStr p)] in
  let mods := VDict [("name", VList [person "Doe, Jane"; person " Doe, Jane ";
                                     person "Roe, Rick"])] in
  extract_personal_names_split mods = Ok ("Doe, Jane", "Roe, Rick", EmptyString, EmptyString) /\
  "Doe, Jane" <> "Roe, Rick".
Proof.
  intros person mods. split; [reflexivity|].
  apply (proj1 (name_columns_no_gaps mods "Doe, Jane" "Roe, Rick" EmptyString EmptyString
                  eq_refl)).
  discriminate.
Defined.

Lemma creator_is_personal n ys zs x :
  creator_step n = Ok ys -> personal_step n = Ok zs -> In x ys -> In x zs.
Proof.
  unfold creator_step, personal_step. intros Hc Hp Hx.
  bind_inv Hc. rewrite Ha in Hp. cbn [bind] in Hp.
  destruct (negb (personal_type a)); [injection Hc as <-; contradiction|].
  bind_inv Hc. bind_inv Hc. destruct (negb a1); [injection Hc as <-; contradiction|].
  bind_inv Hc. rewrite Ha2 in Hp. cbn [bind] in Hp.
  destruct (PyStr.truthy a2); congruence.
Qed.

(** X17.  Every name of the Creator column is also in the positional name
    columns: the creators are picked among the personal names. *)
Theorem creators_among_names (mods : value) (cs ns : list string) :
  creators mods = Ok cs ->
  personal_names mods = Ok ns ->
  incl cs ns.
Proof.
  intros Hc Hn x Hx.
  apply (proj2 (creators_spec mods cs Hc)) in Hx.
  destruct Hx as [n [ys [Hin [Hys Hxy]]]].
  unfold personal_names in Hn. bind_inv Hn. injection Hn as <-.
  apply dedup_In.
  destruct (for_collect_each _ _ _ n Ha Hin) as [zs Hzs].
  apply (for_collect_In _ _ _ n zs x Ha Hin Hzs).
  exact (creator_is_personal n ys zs x Hys Hzs Hxy).
Qed.

Lemma creators_among_names_witness :
  let person p role :=
    VDict [("namePart", VStr p); ("role", VDict [("roleTerm", VStr role)])] in
  let mods := VDict [("name", VList [person "Roe, Rick" "editor"; person "Doe, Jane" "Author"])] in
  creators mods = Ok ["Doe, Jane"] /\
  personal_names mods = Ok ["Roe, Rick"; "Doe, Jane"] /\
  incl ["Doe, Jane"] ["Roe, Rick"; "Doe, Jane"].
Proof.
  intros person mods. split; [reflexivity|]. split; [reflexivity|].
  apply (creators_among_names mods); reflexivity.
Defined.

Lemma join_clean_spec_witness :
  join_clean ["  "; EmptyString] = EmptyString.
Proof.
  destruct (join_clean_spec ["  "; EmptyString]) as [items [_ [_ [_ [_ [_ [H _]]]]]]].
  apply H. repeat constructor.
Defined.
